(** * GraphQL subscription example: the resolvers of [src/index.js]

    A shallow embedding of the resolver map of the server (queries,
    mutations, subscription filters) together with the small part of
    JavaScript it relies on: primitive values, objects as finite maps,
    object spread, strict equality, truthiness, [parseInt], and the array
    methods [find], [findIndex], [push] and [splice].

    The data file is read by every resolver ([readData]) and written by
    none; the event hub ([pubsub]) is the only state a mutation changes. *)

From Stdlib Require Import ZArith QArith Ascii String List Bool DecimalString.
From Stdlib Require Import DecimalNat.
From stdpp Require Import base option list strings gmap fin_maps.

Close Scope Q_scope.
Open Scope string_scope.
Open Scope list_scope.
Open Scope Z_scope.

(** ** JavaScript values *)

Module Js.

(** A JavaScript number: the finite doubles are carried by their exact
    rational value (so [-0] and [+0] coincide, as they do under [===]). *)
Inductive number : Type :=
  | NaN
  | Infinity (negative : bool)
  | Finite (q : Q).

(** The primitive values a flat JSON record or a GraphQL argument holds. *)
Inductive value : Type :=
  | VUndefined
  | VNull
  | VBool (b : bool)
  | VNum (n : number)
  | VStr (s : string).

Definition of_Z (z : Z) : number := Finite (inject_Z z).
Definition of_nat (n : nat) : number := of_Z (Z.of_nat n).

Definition number_equals (x y : number) : bool :=
  match x, y with
  | Finite p, Finite q => Qeq_bool p q
  | Infinity a, Infinity b => Bool.eqb a b
  | _, _ => false
  end.

(** [a === b] on primitives: same type and same value; [NaN] equals
    nothing. *)
Definition strict_equals (a b : value) : bool :=
  match a, b with
  | VUndefined, VUndefined => true
  | VNull, VNull => true
  | VBool x, VBool y => Bool.eqb x y
  | VNum x, VNum y => number_equals x y
  | VStr s, VStr t => String.eqb s t
  | _, _ => false
  end.

(** ToBoolean, as used by the conditional operator [c ? a : b]. *)
Definition truthy (v : value) : bool :=
  match v with
  | VUndefined | VNull => false
  | VBool b => b
  | VNum NaN => false
  | VNum (Infinity _) => true
  | VNum (Finite q) => negb (Qeq_bool q (inject_Z 0))
  | VStr s => negb (String.eqb s "")
  end.

(** *** [String(n)] for an array length *)

Definition String_of_nat (n : nat) : string :=
  NilZero.string_of_uint (Nat.to_uint n).

(** *** [parseInt(string)] with no radix argument *)

(** Strings are UTF-8 byte strings.  The white space [parseInt] skips
    is StrWhiteSpaceChar: TAB, LF, VT, FF, CR and SP in one byte; U+00A0
    in two; U+1680, U+2000 to U+200A, U+2028, U+2029, U+202F, U+205F,
    U+3000 and U+FEFF in three. *)
Definition code (c : ascii) : Z := Z.of_nat (nat_of_ascii c).

Definition is_whitespace (c : ascii) : bool :=
  ((9 <=? code c) && (code c <=? 13)) || (code c =? 32).

Definition is_whitespace2 (c d : ascii) : bool :=
  (code c =? 194) && (code d =? 160).

Definition is_whitespace3 (c d e : ascii) : bool :=
  ((code c =? 225) && (code d =? 154) && (code e =? 128))
  || ((code c =? 226) && (code d =? 128)
      && (((128 <=? code e) && (code e <=? 138))
          || (code e =? 168) || (code e =? 169) || (code e =? 175)))
  || ((code c =? 226) && (code d =? 129) && (code e =? 159))
  || ((code c =? 227) && (code d =? 128) && (code e =? 128))
  || ((code c =? 239) && (code d =? 187) && (code e =? 191)).

Fixpoint trim_start (s : string) : string :=
  match s with
  | String c rest =>
      if is_whitespace c then trim_start rest
      else
        match rest with
        | String d rest2 =>
            if is_whitespace2 c d then trim_start rest2
            else
              match rest2 with
              | String e rest3 =>
                  if is_whitespace3 c d e then trim_start rest3 else s
              | EmptyString => s
              end
        | EmptyString => s
        end
  | EmptyString => s
  end.

Definition digit_value (c : ascii) : option Z :=
  let n := code c in
  if (48 <=? n) && (n <=? 57) then Some (n - 48)
  else if (97 <=? n) && (n <=? 122) then Some (n - 87)
  else if (65 <=? n) && (n <=? 90) then Some (n - 55)
  else None.

(** The longest prefix of radix-[R] digits, read as an integer; [None]
    when that prefix is empty. *)
Fixpoint parse_digits (R : Z) (s : string) (acc : option Z) : option Z :=
  match s with
  | String c rest =>
      match digit_value c with
      | Some d =>
          if d <? R then parse_digits R rest (Some (R * default 0 acc + d))
          else acc
      | None => acc
      end
  | EmptyString => acc
  end.

(** Round an integer to the nearest double (ties to even); integers of
    magnitude below 2^53 are exact. *)
Definition to_double (z : Z) : number :=
  let a := Z.abs z in
  if a <? 2 ^ 53 then of_Z z
  else
    let e := Z.log2 a - 52 in
    let q := a / 2 ^ e in
    let r := a mod 2 ^ e in
    let h := 2 ^ (e - 1) in
    let q' := if (h <? r) || ((r =? h) && Z.odd q) then q + 1 else q in
    let v := q' * 2 ^ e in
    if 2 ^ 1024 <=? v then Infinity (z <? 0) else of_Z (Z.sgn z * v).

Definition strip_sign (s : string) : Z * string :=
  match s with
  | String "-" rest => (-1, rest)
  | String "+" rest => (1, rest)
  | _ => (1, s)
  end.

Definition strip_prefix (s : string) : Z * string :=
  match s with
  | String "0" (String "x" rest) => (16, rest)
  | String "0" (String "X" rest) => (16, rest)
  | _ => (10, s)
  end.

Definition parseInt (s : string) : number :=
  let '(sign, s1) := strip_sign (trim_start s) in
  let '(R, s2) := strip_prefix s1 in
  match parse_digits R s2 None with
  | None => NaN
  | Some z => to_double (sign * z)
  end.

(** *** Objects *)

(** A flat object: property names to primitive values. *)
Abbreviation obj := (gmap string value).

(** Property read [o.k]; a missing property reads as [undefined]. *)
Definition get (o : obj) (k : string) : value :=
  default VUndefined (o !! k).

(** [{ ...a, ...b }]: the properties of [b] win. *)
Definition spread (a b : obj) : obj := b ∪ a.

(** [{ id: i, ...data }] *)
Definition with_id (i : value) (data : obj) : obj :=
  spread {[ "id" := i ]} data.

(** *** Arrays *)

Section Arrays.
Context {A : Type}.

(** [xs.find(p)]: [None] stands for [undefined]. *)
Fixpoint find (p : A → bool) (xs : list A) : option A :=
  match xs with
  | [] => None
  | x :: rest => if p x then Some x else find p rest
  end.

(** [xs.findIndex(p)]: the first index satisfying [p], or [-1]. *)
Fixpoint findIndex_from (p : A → bool) (xs : list A) (i : Z) : Z :=
  match xs with
  | [] => -1
  | x :: rest => if p x then i else findIndex_from p rest (i + 1)
  end.

Definition findIndex (p : A → bool) (xs : list A) : Z :=
  findIndex_from p xs 0.

(** [xs.push(x)] *)
Definition push (xs : list A) (x : A) : list A := xs ++ [x].

(** [xs.splice(start, count)] for [0 <= start]: the array left behind. *)
Definition splice (xs : list A) (start count : nat) : list A :=
  take start xs ++ drop (start + count) xs.

(** [xs[i]] *)
Definition at_index (xs : list A) (i : Z) : option A :=
  if i <? 0 then None else xs !! Z.to_nat i.

(** [xs[i] = x] for an index in range. *)
Definition set_index (xs : list A) (i : Z) (x : A) : list A :=
  if i <? 0 then xs else <[Z.to_nat i := x]> xs.
End Arrays.

End Js.

Import Js.

(** ** The GraphQL input types of [typeDefs] *)

Module Schema.

Inductive scalar : Type := TString | TID | TFloat.

Record inputField : Type := InputField {
  field_name : string;
  field_type : scalar;
  non_null : bool
}.

Definition createUserInput : list inputField :=
  [ InputField "username" TString true;
    InputField "email" TString true ].

Definition updateUserInput : list inputField :=
  [ InputField "username" TString false;
    InputField "email" TString false ].

Definition createEventInput : list inputField :=
  [ InputField "title" TString true;
    InputField "desc" TString true;
    InputField "date" TString true;
    InputField "from" TString false;
    InputField "to" TString false;
    InputField "location_id" TID false;
    InputField "user_id" TID false ].

Definition updateEventInput : list inputField :=
  [ InputField "title" TString false;
    InputField "desc" TString false;
    InputField "date" TString false;
    InputField "from" TString false;
    InputField "to" TString false;
    InputField "location_id" TID false;
    InputField "user_id" TID false ].

Definition createLocationInput : list inputField :=
  [ InputField "name" TString true;
    InputField "desc" TString true;
    InputField "lat" TFloat true;
    InputField "lng" TFloat true ].

Definition updateLocationInput : list inputField :=
  [ InputField "id" TID false;
    InputField "name" TString false;
    InputField "desc" TString false;
    InputField "lat" TFloat false;
    InputField "lng" TFloat false ].

Definition createParticipantInput : list inputField :=
  [ InputField "user_id" TID true;
    InputField "event_id" TID true ].

Definition updateParticipantInput : list inputField :=
  [ InputField "id" TID false;
    InputField "user_id" TID false;
    InputField "event_id" TID false ].

(** The value a resolver sees for a scalar of the given type: [String]
    and [ID] arrive as strings, [Float] as a finite number. *)
Definition coerced (t : scalar) (v : value) : bool :=
  match t, v with
  | TString, VStr _ => true
  | TID, VStr _ => true
  | TFloat, VNum (Finite _) => true
  | _, _ => false
  end.

Definition is_null (v : value) : bool :=
  match v with VNull => true | _ => false end.

Definition field_accepts (f : inputField) (v : value) : bool :=
  coerced (field_type f) v || (negb (non_null f) && is_null v).

Definition lookup_field (ty : list inputField) (k : string) : option inputField :=
  find (λ f, String.eqb (field_name f) k) ty.

Definition property_ok (ty : list inputField) (kv : string * value) : bool :=
  match lookup_field ty kv.1 with
  | Some f => field_accepts f kv.2
  | None => false
  end.

Definition required_present (data : obj) (f : inputField) : bool :=
  negb (non_null f) || bool_decide (is_Some (data !! field_name f)).

(** [data] is an input object of type [ty]: every property it carries is
    a field of the type holding a value of that field's type (or [null]
    when the field is nullable), and every non-null field is present.
    A nullable field left out by the client is absent from the object. *)
Definition valid_input (ty : list inputField) (data : obj) : bool :=
  forallb (property_ok ty) (map_to_list data)
  && forallb (required_present data) ty.

End Schema.

(** ** The data file, the event hub and the resolver monad *)

(** The parsed content of [data.json]: four arrays of flat records. *)
Module Data.
Record Document : Type := {
  users : list obj;
  events : list obj;
  locations : list obj;
  participants : list obj
}.
End Data.
Abbreviation Document := Data.Document.

(** What a mutation publishes: [{ userCreated: user }] and the like. *)
Abbreviation payload := (gmap string obj).

(** The subscription fields that iterate a topic fed by a mutation. *)
Inductive subscription : Type :=
  | userCreated | userUpdated | userDeleted
  | eventCreated | eventUpdated | eventDeleted
  | locationCreated | locationUpdated | locationDeleted
  | participantAdded | participantUpdated | participantDeleted.

(** The topic handed to [pubsub.asyncIterator] by each field. *)
Definition topic_of (f : subscription) : string :=
  match f with
  | userCreated => "userCreated"
  | userUpdated => "userUpdated"
  | userDeleted => "userDeleted"
  | eventCreated => "eventCreated"
  | eventUpdated => "eventUpdated"
  | eventDeleted => "eventDeleted"
  | locationCreated => "locationCreated"
  | locationUpdated => "locationUpdated"
  | locationDeleted => "locationDeleted"
  | participantAdded => "participantAdded"
  | participantUpdated => "participantUpdated"
  | participantDeleted => "participantDeleted"
  end.

(** A live subscription: the field subscribed to, its arguments, and
    the payloads its iterator has been handed so far, oldest first. *)
Record Subscriber : Type := {
  field : subscription;
  variables : obj;
  queue : list payload
}.

(** [data_json] is [None] when the file is missing or is not JSON. *)
Record World : Type := {
  data_json : option Document;
  pubsub : list Subscriber
}.

Inductive error : Type :=
  | IOError
  | TypeError
  | Error (message : string).

Definition Resolver (A : Type) : Type := World → (error + A) * World.

#[global] Instance Resolver_ret : MRet Resolver :=
  λ A x w, (inr x, w).

#[global] Instance Resolver_bind : MBind Resolver :=
  λ A B k m w,
    match m w with
    | (inr x, w') => k x w'
    | (inl err, w') => (inl err, w')
    end.

#[global] Instance Resolver_fmap : FMap Resolver :=
  λ A B f m w,
    match m w with
    | (inr x, w') => (inr (f x), w')
    | (inl err, w') => (inl err, w')
    end.

#[global] Instance Resolver_throw : MThrow error Resolver :=
  λ A err w, (inl err, w).

(** [readData]: read and parse the file; a fresh copy on every call. *)
Definition readData : Resolver Document :=
  λ w, match data_json w with
       | Some jsonData => (inr jsonData, w)
       | None => (inl IOError, w)
       end.

Definition enqueue (topic : string) (p : payload) (s : Subscriber) : Subscriber :=
  if String.eqb (topic_of (field s)) topic
  then {| field := field s; variables := variables s; queue := queue s ++ [p] |}
  else s.

(** [pubsub.publish(topic, p)]: hand [p] to every iterator of [topic]. *)
Definition publish (topic : string) (p : payload) : Resolver () :=
  λ w, (inr (), {| data_json := data_json w;
                   pubsub := enqueue topic p <$> pubsub w |}).

(** ** Subscription filters *)

Abbreviation filterFn := (payload → obj → error + bool).

Definition eventCreated_filter : filterFn :=
  λ payload variables,
    if truthy (get variables "user_id")
    then match payload !! "eventCreated" with
         | Some event =>
             inr (strict_equals (get event "user_id") (get variables "user_id"))
         | None => inl TypeError
         end
    else inr true.

Definition participantAdded_filter : filterFn :=
  λ payload variables,
    if truthy (get variables "user_id")
    then match payload !! "participantAdded" with
         | Some participant =>
             inr (strict_equals (get participant "user_id")
                                (get variables "user_id"))
         | None => inl TypeError
         end
    else inr true.

(** The fields whose [subscribe] is wrapped in [withFilter]. *)
Definition filter_of (f : subscription) : option filterFn :=
  match f with
  | eventCreated => Some eventCreated_filter
  | participantAdded => Some participantAdded_filter
  | _ => None
  end.

(** [withFilter] yields a payload exactly when the filter returns
    [true]; an unwrapped iterator yields every payload. *)
Definition passes (f : subscription) (variables : obj) (p : payload) : bool :=
  match filter_of f with
  | Some fn => match fn p variables with inr true => true | _ => false end
  | None => true
  end.

(** The notifications a subscriber receives, oldest first. *)
Definition received (s : Subscriber) : list payload :=
  List.filter (passes (field s) (variables s)) (queue s).

(** A client starts a subscription. *)
Definition subscribe (f : subscription) (args : obj) : Resolver () :=
  λ w, (inr (), {| data_json := data_json w;
                   pubsub := pubsub w ++
                     [{| field := f; variables := args; queue := [] |}] |}).

(** ** Resolvers *)

(** Each resolver is written after its source text: [const] bindings
    become [let], [await readData()] a bind, [throw] an [mthrow].  An array
    changed in place is rebound under its own name; since [jsonData] is
    local to the call and never written back, a rebound array that is
    not used again is simply dropped when the resolver returns.  In a
    delete, [xs[index]] is read after [findIndex] has returned an index
    in range, so its [None] arm is never taken ([delete_outcome]). *)

Module Query.

Definition users : Resolver (list obj) :=
  data ← readData;
  mret (Data.users data).

Definition user (id : string) : Resolver (option obj) :=
  data ← readData;
  mret (find (λ user, strict_equals (get user "id") (VStr id))
          (Data.users data)).

Definition events : Resolver (list obj) :=
  data ← readData;
  mret (Data.events data).

Definition event (id : string) : Resolver (option obj) :=
  data ← readData;
  mret (find (λ event, strict_equals (get event "id") (VStr id))
          (Data.events data)).

Definition locations : Resolver (list obj) :=
  data ← readData;
  mret (Data.locations data).

Definition location (id : string) : Resolver (option obj) :=
  data ← readData;
  mret (find (λ location, strict_equals (get location "id") (VStr id))
          (Data.locations data)).

Definition participants : Resolver (list obj) :=
  data ← readData;
  mret (Data.participants data).

Definition participant (id : string) : Resolver (option obj) :=
  data ← readData;
  mret (find (λ participant, strict_equals (get participant "id") (VStr id))
          (Data.participants data)).

End Query.

Module Mutation.

Definition addUser (data : obj) : Resolver obj :=
  jsonData ← readData;
  let users := Data.users jsonData in
  let user := with_id (VStr (String_of_nat (length users + 1))) data in
  let users := push users user in
  publish "userCreated" {[ "userCreated" := user ]};;
  mret user.

Definition updateUser (id : string) (data : obj) : Resolver obj :=
  jsonData ← readData;
  let users := Data.users jsonData in
  let user_index :=
    findIndex (λ user, strict_equals (get user "id") (VNum (parseInt id)))
      users in
  if user_index =? -1 then mthrow (Error "User not found") else
  let updated_user :=
    spread (default ∅ (at_index users user_index)) data in
  let users := set_index users user_index updated_user in
  publish "userUpdated" {[ "userUpdated" := updated_user ]};;
  mret updated_user.

Definition deleteUser (id : string) : Resolver obj :=
  jsonData ← readData;
  let users := Data.users jsonData in
  let user_index :=
    findIndex (λ user, strict_equals (get user "id") (VNum (parseInt id)))
      users in
  if user_index =? -1 then mthrow (Error "User not found") else
  match at_index users user_index with
  | Some user =>
      let users := splice users (Z.to_nat user_index) 1 in
      publish "userDeleted" {[ "userDeleted" := user ]};;
      mret user
  | None => mthrow TypeError
  end.

Definition deleteAllUsers : Resolver obj :=
  jsonData ← readData;
  let length := length (Data.users jsonData) in
  let users := splice (Data.users jsonData) 0 length in
  mret {[ "count" := VNum (of_nat length) ]}.

(** [nanoid] is the string the call [nanoid()] returns. *)
Definition addEvent (nanoid : string) (data : obj) : Resolver obj :=
  jsonData ← readData;
  let events := Data.events jsonData in
  let event := with_id (VStr nanoid) data in
  let events := push events event in
  publish "eventCreated" {[ "eventCreated" := event ]};;
  mret event.

Definition updateEvent (id : string) (data : obj) : Resolver obj :=
  jsonData ← readData;
  let events := Data.events jsonData in
  let event_index :=
    findIndex (λ event, strict_equals (get event "id") (VNum (parseInt id)))
      events in
  if event_index =? -1 then mthrow (Error "Event not found") else
  let updated_event :=
    spread (default ∅ (at_index events event_index)) data in
  let events := set_index events event_index updated_event in
  publish "eventUpdated" {[ "eventUpdated" := updated_event ]};;
  mret updated_event.

Definition deleteEvent (id : string) : Resolver obj :=
  jsonData ← readData;
  let events := Data.events jsonData in
  let event_index :=
    findIndex (λ event, strict_equals (get event "id") (VNum (parseInt id)))
      events in
  if event_index =? -1 then mthrow (Error "Event not found") else
  match at_index events event_index with
  | Some event =>
      let events := splice events (Z.to_nat event_index) 1 in
      publish "eventDeleted" {[ "eventDeleted" := event ]};;
      mret event
  | None => mthrow TypeError
  end.

Definition deleteAllEvents : Resolver obj :=
  jsonData ← readData;
  let length := length (Data.events jsonData) in
  let events := splice (Data.events jsonData) 0 length in
  mret {[ "count" := VNum (of_nat length) ]}.

(** [nanoid] is the string the call [nanoid()] returns. *)
Definition addLocation (nanoid : string) (data : obj) : Resolver obj :=
  jsonData ← readData;
  let locations := Data.locations jsonData in
  let location := with_id (VStr nanoid) data in
  let locations := push locations location in
  publish "locationCreated" {[ "locationCreated" := location ]};;
  mret location.

Definition updateLocation (id : string) (data : obj) : Resolver obj :=
  jsonData ← readData;
  let locations := Data.locations jsonData in
  let location_index :=
    findIndex (λ location, strict_equals (get location "id") (VNum (parseInt id)))
      locations in
  if location_index =? -1 then mthrow (Error "Location not found") else
  let updated_location :=
    spread (default ∅ (at_index locations location_index)) data in
  let locations := set_index locations location_index updated_location in
  publish "locationUpdated" {[ "locationUpdated" := updated_location ]};;
  mret updated_location.

Definition deleteLocation (id : string) : Resolver obj :=
  jsonData ← readData;
  let locations := Data.locations jsonData in
  let location_index :=
    findIndex (λ location, strict_equals (get location "id") (VNum (parseInt id)))
      locations in
  if location_index =? -1 then mthrow (Error "Location not found") else
  match at_index locations location_index with
  | Some location =>
      let locations := splice locations (Z.to_nat location_index) 1 in
      publish "locationDeleted" {[ "locationDeleted" := location ]};;
      mret location
  | None => mthrow TypeError
  end.

Definition deleteAllLocations : Resolver obj :=
  jsonData ← readData;
  let length := length (Data.locations jsonData) in
  let locations := splice (Data.locations jsonData) 0 length in
  mret {[ "count" := VNum (of_nat length) ]}.

(** [nanoid] is the string the call [nanoid()] returns. *)
Definition addParticipant (nanoid : string) (data : obj) : Resolver obj :=
  jsonData ← readData;
  let participants := Data.participants jsonData in
  let participant := with_id (VStr nanoid) data in
  let participants := push participants participant in
  publish "participantAdded" {[ "participantAdded" := participant ]};;
  mret participant.

Definition updateParticipant (id : string) (data : obj) : Resolver obj :=
  jsonData ← readData;
  let participants := Data.participants jsonData in
  let participant_index :=
    findIndex (λ participant, strict_equals (get participant "id") (VNum (parseInt id)))
      participants in
  if participant_index =? -1 then mthrow (Error "Participant not found") else
  let updated_participant :=
    spread (default ∅ (at_index participants participant_index)) data in
  let participants := set_index participants participant_index updated_participant in
  publish "participantUpdated" {[ "participantUpdated" := updated_participant ]};;
  mret updated_participant.

Definition deleteParticipant (id : string) : Resolver obj :=
  jsonData ← readData;
  let participants := Data.participants jsonData in
  let participant_index :=
    findIndex (λ participant, strict_equals (get participant "id") (VNum (parseInt id)))
      participants in
  if participant_index =? -1 then mthrow (Error "Participant not found") else
  match at_index participants participant_index with
  | Some participant =>
      let participants := splice participants (Z.to_nat participant_index) 1 in
      publish "participantDeleted" {[ "participantDeleted" := participant ]};;
      mret participant
  | None => mthrow TypeError
  end.

Definition deleteAllParticipants : Resolver obj :=
  jsonData ← readData;
  let length := length (Data.participants jsonData) in
  let participants := splice (Data.participants jsonData) 0 length in
  mret {[ "count" := VNum (of_nat length) ]}.

End Mutation.

(** ** The four entity types at once *)

(** The sixteen mutations and eight queries are four copies of six
    resolvers.  [Repository] indexes them by entity type; [Local] is the
    same code with the local [jsonData], as it stands when the resolver
    returns, handed back next to the result. *)

Inductive entity : Type := User | Event | Location | Participant.

Definition collection (e : entity) (d : Document) : list obj :=
  match e with
  | User => Data.users d
  | Event => Data.events d
  | Location => Data.locations d
  | Participant => Data.participants d
  end.

Definition with_collection (e : entity) (xs : list obj) (d : Document) : Document :=
  match e with
  | User =>
      {| Data.users := xs; Data.events := Data.events d;
         Data.locations := Data.locations d;
         Data.participants := Data.participants d |}
  | Event =>
      {| Data.users := Data.users d; Data.events := xs;
         Data.locations := Data.locations d;
         Data.participants := Data.participants d |}
  | Location =>
      {| Data.users := Data.users d; Data.events := Data.events d;
         Data.locations := xs;
         Data.participants := Data.participants d |}
  | Participant =>
      {| Data.users := Data.users d; Data.events := Data.events d;
         Data.locations := Data.locations d;
         Data.participants := xs |}
  end.

Definition created (e : entity) : subscription :=
  match e with
  | User => userCreated
  | Event => eventCreated
  | Location => locationCreated
  | Participant => participantAdded
  end.

Definition updated (e : entity) : subscription :=
  match e with
  | User => userUpdated
  | Event => eventUpdated
  | Location => locationUpdated
  | Participant => participantUpdated
  end.

Definition deleted (e : entity) : subscription :=
  match e with
  | User => userDeleted
  | Event => eventDeleted
  | Location => locationDeleted
  | Participant => participantDeleted
  end.

Definition not_found (e : entity) : error :=
  match e with
  | User => Error "User not found"
  | Event => Error "Event not found"
  | Location => Error "Location not found"
  | Participant => Error "Participant not found"
  end.

(** The id a create assigns: the array length plus one for a user, the
    result of [nanoid()] for the others. *)
Definition assigned_id (e : entity) (nanoid : string) (xs : list obj) : string :=
  match e with
  | User => String_of_nat (length xs + 1)
  | _ => nanoid
  end.

Definition create_input (e : entity) : list Schema.inputField :=
  match e with
  | User => Schema.createUserInput
  | Event => Schema.createEventInput
  | Location => Schema.createLocationInput
  | Participant => Schema.createParticipantInput
  end.

Definition update_input (e : entity) : list Schema.inputField :=
  match e with
  | User => Schema.updateUserInput
  | Event => Schema.updateEventInput
  | Location => Schema.updateLocationInput
  | Participant => Schema.updateParticipantInput
  end.

(** The callback of [findIndex] in every update and delete. *)
Definition located_by (id : string) (x : obj) : bool :=
  strict_equals (get x "id") (VNum (parseInt id)).

(** The callback of [find] in every get-by-id query. *)
Definition queried_by (id : string) (x : obj) : bool :=
  strict_equals (get x "id") (VStr id).

Module Local.

Definition create (e : entity) (nanoid : string) (data : obj)
  : Resolver (obj * Document) :=
  jsonData ← readData;
  let xs := collection e jsonData in
  let x := with_id (VStr (assigned_id e nanoid xs)) data in
  let xs := push xs x in
  publish (topic_of (created e)) {[ topic_of (created e) := x ]};;
  mret (x, with_collection e xs jsonData).

Definition update (e : entity) (id : string) (data : obj)
  : Resolver (obj * Document) :=
  jsonData ← readData;
  let xs := collection e jsonData in
  let index := findIndex (located_by id) xs in
  if index =? -1 then mthrow (not_found e) else
  let updated_x := spread (default ∅ (at_index xs index)) data in
  let xs := set_index xs index updated_x in
  publish (topic_of (updated e)) {[ topic_of (updated e) := updated_x ]};;
  mret (updated_x, with_collection e xs jsonData).

Definition delete (e : entity) (id : string) : Resolver (obj * Document) :=
  jsonData ← readData;
  let xs := collection e jsonData in
  let index := findIndex (located_by id) xs in
  if index =? -1 then mthrow (not_found e) else
  match at_index xs index with
  | Some x =>
      let xs := splice xs (Z.to_nat index) 1 in
      publish (topic_of (deleted e)) {[ topic_of (deleted e) := x ]};;
      mret (x, with_collection e xs jsonData)
  | None => mthrow TypeError
  end.

Definition deleteAll (e : entity) : Resolver (obj * Document) :=
  jsonData ← readData;
  let length := length (collection e jsonData) in
  let xs := splice (collection e jsonData) 0 length in
  mret ({[ "count" := VNum (of_nat length) ]}, with_collection e xs jsonData).

End Local.

Module Repository.

Definition list (e : entity) : Resolver (list obj) :=
  match e with
  | User => Query.users
  | Event => Query.events
  | Location => Query.locations
  | Participant => Query.participants
  end.

Definition getById (e : entity) (id : string) : Resolver (option obj) :=
  match e with
  | User => Query.user id
  | Event => Query.event id
  | Location => Query.location id
  | Participant => Query.participant id
  end.

Definition create (e : entity) (nanoid : string) (data : obj) : Resolver obj :=
  match e with
  | User => Mutation.addUser data
  | Event => Mutation.addEvent nanoid data
  | Location => Mutation.addLocation nanoid data
  | Participant => Mutation.addParticipant nanoid data
  end.

Definition update (e : entity) (id : string) (data : obj) : Resolver obj :=
  match e with
  | User => Mutation.updateUser id data
  | Event => Mutation.updateEvent id data
  | Location => Mutation.updateLocation id data
  | Participant => Mutation.updateParticipant id data
  end.

Definition delete (e : entity) (id : string) : Resolver obj :=
  match e with
  | User => Mutation.deleteUser id
  | Event => Mutation.deleteEvent id
  | Location => Mutation.deleteLocation id
  | Participant => Mutation.deleteParticipant id
  end.

Definition deleteAll (e : entity) : Resolver obj :=
  match e with
  | User => Mutation.deleteAllUsers
  | Event => Mutation.deleteAllEvents
  | Location => Mutation.deleteAllLocations
  | Participant => Mutation.deleteAllParticipants
  end.

End Repository.

(** ** Sample worlds *)

Definition no_records : Document :=
  {| Data.users := []; Data.events := [];
     Data.locations := []; Data.participants := [] |}.

Definition alice : obj :=
  {[ "id" := VStr "1"; "username" := VStr "alice"; "email" := VStr "a@x.com" ]}.

Definition alice_only : Document :=
  {| Data.users := [alice]; Data.events := [];
     Data.locations := []; Data.participants := [] |}.

Definition hq : obj :=
  {[ "name" := VStr "HQ"; "desc" := VStr "Main office";
     "lat" := VNum (of_Z 1); "lng" := VNum (of_Z 2) ]}.

(** A user and an event stored with numeric ids. *)
Definition bob : obj :=
  {[ "id" := VNum (of_Z 1); "username" := VStr "bob"; "email" := VStr "b@x.com" ]}.

Definition bob_only : Document :=
  {| Data.users := [bob]; Data.events := [];
     Data.locations := []; Data.participants := [] |}.

Definition concert : obj :=
  {[ "id" := VNum (of_Z 1); "title" := VStr "Concert"; "user_id" := VStr "7" ]}.

Definition concert_only : Document :=
  {| Data.users := []; Data.events := [concert];
     Data.locations := []; Data.participants := [] |}.

(** An event whose id is the string ["1"], next to [concert]. *)
Definition picnic : obj :=
  {[ "id" := VStr "1"; "title" := VStr "Picnic"; "user_id" := VStr "7" ]}.

Definition concert_and_picnic : Document :=
  {| Data.users := []; Data.events := [concert; picnic];
     Data.locations := []; Data.participants := [] |}.

(** A location stored with the numeric id 5. *)
Definition depot : obj :=
  {[ "id" := VNum (of_Z 5); "name" := VStr "Depot"; "desc" := VStr "Store room";
     "lat" := VNum (of_Z 3); "lng" := VNum (of_Z 4) ]}.

Definition depot_only : Document :=
  {| Data.users := []; Data.events := [];
     Data.locations := [depot]; Data.participants := [] |}.

(** A patch for a location that also carries an id. *)
Definition yard_patch : obj :=
  {[ "id" := VStr "zzz"; "name" := VStr "Yard" ]}.

(** A create-event input whose organizer is user ["7"]. *)
Definition party : obj :=
  {[ "title" := VStr "Party"; "desc" := VStr "Birthday";
     "date" := VStr "2024-01-01"; "user_id" := VStr "7" ]}.

(** A patch for a participant that carries only an id. *)
Definition id_patch : obj := {[ "id" := VStr "zzz" ]}.

(** A fresh subscriber to [f] with no argument. *)
Definition watcher (f : subscription) : Subscriber :=
  {| field := f; variables := ∅; queue := [] |}.

(** A fresh subscriber to [f] with the argument [user_id: U]. *)
Definition listener (f : subscription) (U : string) : Subscriber :=
  {| field := f; variables := {[ "user_id" := VStr U ]}; queue := [] |}.

(** A world whose data file loads. *)
Definition world (doc : Document) (subs : list Subscriber) : World :=
  {| data_json := Some doc; pubsub := subs |}.

(** ** Field resolvers of the object types *)

(** [parent] is the record whose field is being resolved.  The [id]
    argument of [User.event] is nullable, so it arrives as a value. *)

Module User.

Definition events (parent : obj) : Resolver (list obj) :=
  jsonData ← readData;
  mret (List.filter
          (λ event, strict_equals (get event "user_id") (get parent "id"))
          (Data.events jsonData)).

Definition event (parent : obj) (id : value) : Resolver (option obj) :=
  jsonData ← readData;
  mret (find (λ event, strict_equals (get event "id") id)
          (Data.events jsonData)).

End User.

Module Event.

Definition user (parent : obj) : Resolver (option obj) :=
  jsonData ← readData;
  mret (find (λ user, strict_equals (get user "id") (get parent "user_id"))
          (Data.users jsonData)).

Definition participants (parent : obj) : Resolver (list obj) :=
  jsonData ← readData;
  mret (List.filter
          (λ participant,
             strict_equals (get participant "event_id") (get parent "id"))
          (Data.participants jsonData)).

Definition location (parent : obj) : Resolver (option obj) :=
  jsonData ← readData;
  mret (find
          (λ location,
             strict_equals (get location "id") (get parent "location_id"))
          (Data.locations jsonData)).

End Event.

Module Participant.

Definition user (parent : obj) : Resolver (option obj) :=
  jsonData ← readData;
  mret (find (λ user, strict_equals (get user "id") (get parent "user_id"))
          (Data.users jsonData)).

Definition event (parent : obj) : Resolver (option obj) :=
  jsonData ← readData;
  mret (find (λ event, strict_equals (get event "id") (get parent "event_id"))
          (Data.events jsonData)).

End Participant.

(** ** Ids with something after the number *)

(** [t] put after a decimal numeral does not extend it and does not turn
    a leading 0 into the prefix [0x]: [t] is empty or starts with a
    character that is neither a decimal digit nor [x] or [X]. *)
Definition stops_decimal (t : string) : bool :=
  match t with
  | EmptyString => true
  | String c _ =>
      match digit_value c with
      | Some d => (10 <=? d) && negb (d =? 33)
      | None => true
      end
  end.

(** ** How a world may change *)

(** [w'] differs from [w] at most by payloads appended to queues: the
    data file, the subscribers, their fields and their arguments are the
    same. *)
Definition queues_grow (w w' : World) : Prop :=
  data_json w' = data_json w
  ∧ Forall2 (λ s s', field s' = field s ∧ variables s' = variables s
                     ∧ queue s `prefix_of` queue s')
      (pubsub w) (pubsub w').

(** More sample records: a user stored with the numeric id 7 and an
    event of hers. *)
Definition carol : obj :=
  {[ "id" := VNum (of_Z 7); "username" := VStr "carol"; "email" := VStr "c@x.com" ]}.

Definition recital : obj :=
  {[ "id" := VNum (of_Z 2); "title" := VStr "Recital"; "user_id" := VNum (of_Z 7) ]}.

Definition seat : obj :=
  {[ "id" := VNum (of_Z 3); "user_id" := VNum (of_Z 7); "event_id" := VNum (of_Z 2) ]}.

Definition carol_recital : Document :=
  {| Data.users := [bob; carol]; Data.events := [concert; recital];
     Data.locations := [depot]; Data.participants := [seat] |}.

(** A create-participant input for user ["7"]. *)
Definition ticket : obj :=
  {[ "user_id" := VStr "7"; "event_id" := VStr "e1" ]}.

(** * Properties *)

(** ** Running a resolver *)

Ltac unfold_monad :=
  unfold mbind, mret, fmap, mthrow,
    Resolver_bind, Resolver_ret, Resolver_fmap, Resolver_throw,
    readData, publish in *.

Ltac unfold_resolvers :=
  unfold Repository.list, Repository.getById, Repository.create,
    Repository.update, Repository.delete, Repository.deleteAll,
    Local.create, Local.update, Local.delete, Local.deleteAll,
    Query.users, Query.user, Query.events, Query.event,
    Query.locations, Query.location, Query.participants, Query.participant,
    Mutation.addUser, Mutation.updateUser, Mutation.deleteUser,
    Mutation.deleteAllUsers,
    Mutation.addEvent, Mutation.updateEvent, Mutation.deleteEvent,
    Mutation.deleteAllEvents,
    Mutation.addLocation, Mutation.updateLocation, Mutation.deleteLocation,
    Mutation.deleteAllLocations,
    Mutation.addParticipant, Mutation.updateParticipant,
    Mutation.deleteParticipant, Mutation.deleteAllParticipants in *.

Section Run.
Variable e : entity.
Variable doc : Document.
Variable subs : list Subscriber.

Lemma list_run :
  Repository.list e (world doc subs) = (inr (collection e doc), world doc subs).
Proof. destruct e; reflexivity. Qed.

Lemma getById_run (id : string) :
  Repository.getById e id (world doc subs)
  = (inr (find (queried_by id) (collection e doc)), world doc subs).
Proof. destruct e; reflexivity. Qed.

Lemma create_local (nanoid : string) (data : obj) :
  Repository.create e nanoid data (world doc subs)
  = (fst <$> Local.create e nanoid data) (world doc subs).
Proof. destruct e; reflexivity. Qed.

Lemma update_local (id : string) (data : obj) :
  Repository.update e id data (world doc subs)
  = (fst <$> Local.update e id data) (world doc subs).
Proof.
  destruct e; unfold_resolvers; unfold_monad; simpl;
    unfold located_by; destruct (findIndex _ _ =? -1); reflexivity.
Qed.

Lemma delete_local (id : string) :
  Repository.delete e id (world doc subs)
  = (fst <$> Local.delete e id) (world doc subs).
Proof.
  destruct e; unfold_resolvers; unfold_monad; simpl;
    unfold located_by; destruct (findIndex _ _ =? -1); try reflexivity;
    destruct (at_index _ _); reflexivity.
Qed.

Lemma deleteAll_local :
  Repository.deleteAll e (world doc subs)
  = (fst <$> Local.deleteAll e) (world doc subs).
Proof. destruct e; reflexivity. Qed.
End Run.

Section NoFile.
Variable e : entity.
Variable subs : list Subscriber.

Lemma deleteAll_no_file :
  Repository.deleteAll e {| data_json := None; pubsub := subs |}
  = (inl IOError, {| data_json := None; pubsub := subs |}).
Proof. destruct e; reflexivity. Qed.
End NoFile.

(** ** Arrays *)

Section ArrayFacts.
Context {A : Type}.
Implicit Types (p : A → bool) (xs : list A).

Lemma findIndex_from_cases p xs (k : Z) :
  (findIndex_from p xs k = -1 ∧ ∀ x, x ∈ xs → p x = false)
  ∨ (∃ (i : nat) x,
       findIndex_from p xs k = k + Z.of_nat i
       ∧ xs !! i = Some x ∧ p x = true).
Proof.
  revert k. induction xs as [|y ys IH]; intros k; simpl.
  - left. split; [reflexivity|]. intros x Hx. inversion Hx.
  - destruct (p y) eqn:Hy.
    + right. exists 0%nat, y. repeat split; [lia | assumption].
    + destruct (IH (k + 1)) as [[Hm Hall] | (i & x & Hi & Hx & Hp)].
      * left. split; [assumption|].
        intros x Hx. apply elem_of_cons in Hx as [-> | Hx]; auto.
      * right. exists (S i), x. repeat split; [lia | assumption..].
Qed.

Lemma findIndex_cases p xs :
  (findIndex p xs = -1 ∧ ∀ x, x ∈ xs → p x = false)
  ∨ (∃ (i : nat) x,
       findIndex p xs = Z.of_nat i ∧ xs !! i = Some x ∧ p x = true).
Proof.
  unfold findIndex.
  destruct (findIndex_from_cases p xs 0) as [H | (i & x & Hi & H)]; [by left|].
  right. exists i, x. split; [lia | assumption].
Qed.

Lemma findIndex_absent p xs :
  (∀ x, x ∈ xs → p x = false) → findIndex p xs = -1.
Proof.
  intros Hall.
  destruct (findIndex_cases p xs) as [[H _] | (i & x & _ & Hx & Hp)]; [done|].
  apply list_elem_of_lookup_2 in Hx. rewrite (Hall x Hx) in Hp. discriminate.
Qed.

Lemma at_index_of_nat xs (i : nat) : at_index xs (Z.of_nat i) = xs !! i.
Proof.
  unfold at_index. destruct (Z.ltb_spec (Z.of_nat i) 0); [lia|].
  by rewrite Nat2Z.id.
Qed.

Lemma set_index_of_nat xs (i : nat) x :
  set_index xs (Z.of_nat i) x = <[i := x]> xs.
Proof.
  unfold set_index. destruct (Z.ltb_spec (Z.of_nat i) 0); [lia|].
  by rewrite Nat2Z.id.
Qed.

Lemma splice_all xs : splice xs 0 (length xs) = [].
Proof. unfold splice. simpl. apply drop_all. Qed.

Lemma find_absent p xs : (∀ x, x ∈ xs → p x = false) → find p xs = None.
Proof.
  induction xs as [|y ys IH]; intros Hall; simpl; [reflexivity|].
  rewrite (Hall y) by apply list_elem_of_here.
  apply IH. intros x Hx. apply Hall. by apply list_elem_of_further.
Qed.

Lemma find_Some p xs x : find p xs = Some x → x ∈ xs ∧ p x = true.
Proof.
  induction xs as [|y ys IH]; simpl; [discriminate|].
  destruct (p y) eqn:Hy.
  - intros [= ->]. split; [apply list_elem_of_here | assumption].
  - intros H. destruct (IH H). split; [by apply list_elem_of_further | assumption].
Qed.
End ArrayFacts.

(** ** Strict equality and ids *)

Lemma strict_equals_VStr (v : value) (s : string) :
  strict_equals v (VStr s) = true ↔ v = VStr s.
Proof.
  destruct v; simpl; try (split; [discriminate | intros [=]]).
  rewrite String.eqb_eq. split; [by intros -> | by intros [= ->]].
Qed.

(** A record found by an update or a delete has a number for its id, a
    record found by a query a string: the two never find the same one. *)
Lemma located_by_number (id : string) (x : obj) :
  located_by id x = true → ∃ n, x !! "id" = Some (VNum n).
Proof.
  unfold located_by, get.
  destruct (x !! "id") as [[| | |n|]|]; simpl; try discriminate. eauto.
Qed.

Lemma queried_by_string (id : string) (x : obj) :
  queried_by id x = true ↔ x !! "id" = Some (VStr id).
Proof.
  unfold queried_by. rewrite strict_equals_VStr. unfold get.
  destruct (x !! "id"); simpl; [|split; discriminate].
  split; [by intros -> | by intros [= ->]].
Qed.

Lemma located_not_queried (id id' : string) (x : obj) :
  located_by id x = true → queried_by id' x = false.
Proof.
  intros [n Hn]%located_by_number.
  destruct (queried_by id' x) eqn:Hq; [|reflexivity].
  apply queried_by_string in Hq. congruence.
Qed.

Lemma string_id_not_located (id s : string) (x : obj) :
  x !! "id" = Some (VStr s) → located_by id x = false.
Proof. intros H. unfold located_by, get. by rewrite H. Qed.

(** ** Input objects *)

Lemma valid_input_property ty (data : obj) (k : string) (v : value) :
  Schema.valid_input ty data = true → data !! k = Some v →
  ∃ f, Schema.lookup_field ty k = Some f ∧ Schema.field_accepts f v = true.
Proof.
  unfold Schema.valid_input. intros [Hprops _]%andb_prop Hk.
  rewrite forallb_forall in Hprops.
  specialize (Hprops (k, v)). unfold Schema.property_ok in Hprops. simpl in Hprops.
  destruct (Schema.lookup_field ty k) as [f|].
  - exists f. split; [reflexivity|]. apply Hprops.
    apply list_elem_of_In. by apply elem_of_map_to_list.
  - exfalso. assert (false = true); [|discriminate]. apply Hprops.
    apply list_elem_of_In. by apply elem_of_map_to_list.
Qed.

Lemma create_input_no_id (e : entity) (data : obj) :
  Schema.valid_input (create_input e) data = true → data !! "id" = None.
Proof.
  intros Hv. destruct (data !! "id") as [v|] eqn:Hid; [|reflexivity].
  destruct (valid_input_property _ _ _ _ Hv Hid) as (f & Hf & _).
  destruct e; discriminate Hf.
Qed.

Lemma with_id_insert (i : value) (data : obj) :
  data !! "id" = None → with_id i data = <["id" := i]> data.
Proof.
  intros Hid. unfold with_id, spread. apply map_eq. intros k.
  rewrite lookup_union, lookup_insert. case_decide as Hk.
  - subst k. rewrite Hid, lookup_singleton_eq. reflexivity.
  - rewrite lookup_singleton_ne by done. by destruct (data !! k).
Qed.

Lemma with_id_other (i : value) (data : obj) (k : string) :
  k ≠ "id" → with_id i data !! k = data !! k.
Proof.
  intros Hk. unfold with_id, spread.
  rewrite lookup_union, lookup_singleton_ne by done. by destruct (data !! k).
Qed.

Lemma spread_lookup_patch (x data : obj) (k : string) (v : value) :
  data !! k = Some v → spread x data !! k = Some v.
Proof. intros H. unfold spread. by rewrite lookup_union, H, union_Some_l. Qed.

Lemma spread_lookup_kept (x data : obj) (k : string) :
  data !! k = None → spread x data !! k = x !! k.
Proof. intros H. unfold spread. by rewrite lookup_union, H, (left_id_L None _). Qed.

(** ** What each mutation does when the file loads *)

Section Mutations.
Variable e : entity.
Variable doc : Document.
Variable subs : list Subscriber.

Lemma create_run (nanoid : string) (data : obj) :
  let x := with_id (VStr (assigned_id e nanoid (collection e doc))) data in
  Local.create e nanoid data (world doc subs)
  = (inr (x, with_collection e (collection e doc ++ [x]) doc),
     world doc (enqueue (topic_of (created e)) {[ topic_of (created e) := x ]}
                  <$> subs)).
Proof. reflexivity. Qed.

Lemma update_absent (id : string) (data : obj) :
  findIndex (located_by id) (collection e doc) = -1 →
  Local.update e id data (world doc subs) = (inl (not_found e), world doc subs).
Proof.
  intros H. unfold Local.update. unfold_monad. simpl.
  rewrite H. reflexivity.
Qed.

Lemma update_found (id : string) (data : obj) (i : nat) (x : obj) :
  findIndex (located_by id) (collection e doc) = Z.of_nat i →
  collection e doc !! i = Some x →
  let x' := spread x data in
  Local.update e id data (world doc subs)
  = (inr (x', with_collection e (<[i := x']> (collection e doc)) doc),
     world doc (enqueue (topic_of (updated e)) {[ topic_of (updated e) := x' ]}
                  <$> subs)).
Proof.
  intros H Hx. unfold Local.update. unfold_monad. simpl.
  rewrite H, at_index_of_nat, set_index_of_nat, Hx.
  destruct (Z.eqb_spec (Z.of_nat i) (-1)); [lia|]. reflexivity.
Qed.

Lemma delete_absent (id : string) :
  findIndex (located_by id) (collection e doc) = -1 →
  Local.delete e id (world doc subs) = (inl (not_found e), world doc subs).
Proof.
  intros H. unfold Local.delete. unfold_monad. simpl.
  rewrite H. reflexivity.
Qed.

Lemma delete_found (id : string) (i : nat) (x : obj) :
  findIndex (located_by id) (collection e doc) = Z.of_nat i →
  collection e doc !! i = Some x →
  Local.delete e id (world doc subs)
  = (inr (x, with_collection e (splice (collection e doc) i 1) doc),
     world doc (enqueue (topic_of (deleted e)) {[ topic_of (deleted e) := x ]}
                  <$> subs)).
Proof.
  intros H Hx. unfold Local.delete. unfold_monad. simpl.
  rewrite H, at_index_of_nat, Hx, Nat2Z.id.
  destruct (Z.eqb_spec (Z.of_nat i) (-1)); [lia|]. reflexivity.
Qed.

Lemma deleteAll_run :
  Local.deleteAll e (world doc subs)
  = (inr ({[ "count" := VNum (of_nat (length (collection e doc))) ]},
          with_collection e [] doc),
     world doc subs).
Proof.
  unfold Local.deleteAll. unfold_monad. simpl.
  by rewrite splice_all.
Qed.
End Mutations.

(** The [TypeError] arm of a delete is never taken: the index handed
    back by [findIndex] is in range. *)
Lemma delete_outcome (e : entity) (id : string) (doc : Document)
    (subs : list Subscriber) :
  (Local.delete e id (world doc subs)).1 = inl (not_found e)
  ∨ ∃ x d, (Local.delete e id (world doc subs)).1 = inr (x, d).
Proof.
  destruct (findIndex_cases (located_by id) (collection e doc))
    as [[Hnone _] | (i & x & Hi & Hx & _)].
  - left. by rewrite (delete_absent e doc subs id Hnone).
  - right. eexists _, _. by rewrite (delete_found e doc subs id i x Hi Hx).
Qed.

Lemma fmap_run {A B} (f : A → B) (m : Resolver A) (w w' : World) (r : error + A) :
  m w = (r, w') →
  (f <$> m) w = (match r with inr x => inr (f x) | inl err => inl err end, w').
Proof. intros H. unfold fmap, Resolver_fmap. rewrite H. by destruct r. Qed.

(** * The claims *)

(** ** Create, then get by id *)

(** C1, as stated, fails: on an empty data file [addLocation] returns the
    new location with its id, yet the file is not written, so the query
    [location] with that id finds nothing and [locations] is still empty. *)
Lemma create_then_getById_not_found :
  Schema.valid_input Schema.createLocationInput hq = true
  ∧ Mutation.addLocation "V1StGXR8_Z5jdHi6B-myT" hq (world no_records [])
    = (inr (<["id" := VStr "V1StGXR8_Z5jdHi6B-myT"]> hq), world no_records [])
  ∧ Query.location "V1StGXR8_Z5jdHi6B-myT" (world no_records [])
    = (inr None, world no_records [])
  ∧ Query.locations (world no_records []) = (inr [], world no_records []).
Proof. repeat split; vm_compute; reflexivity. Qed.

(** C1, amended: for every entity type and every valid create input, when
    the data file loads, create returns the input fields plus the assigned
    id, appends that record to the copy of the collection held in memory
    for the call, and publishes it on the Created topic; the data file is
    not written, so a following get-by-id with the assigned id returns
    what it returned before the create, and not-found when the file holds
    no record with that id. *)
Theorem create_returns_record_file_unchanged
    (e : entity) (nanoid : string) (data : obj)
    (doc : Document) (subs : list Subscriber) :
  Schema.valid_input (create_input e) data = true →
  let newId := assigned_id e nanoid (collection e doc) in
  let x := <["id" := VStr newId]> data in
  let w' := world doc (enqueue (topic_of (created e)) {[ topic_of (created e) := x ]}
                         <$> subs) in
  Repository.create e nanoid data (world doc subs) = (inr x, w')
  ∧ Local.create e nanoid data (world doc subs)
    = (inr (x, with_collection e (collection e doc ++ [x]) doc), w')
  ∧ data_json w' = Some doc
  ∧ Repository.list e w' = (inr (collection e doc), w')
  ∧ (Repository.getById e newId w').1 = (Repository.getById e newId (world doc subs)).1
  ∧ ((∀ y, y ∈ collection e doc → y !! "id" ≠ Some (VStr newId)) →
     Repository.getById e newId w' = (inr None, w')).
Proof.
  intros Hvalid newId x w'.
  pose proof (create_run e doc subs nanoid data) as Hrun. simpl in Hrun.
  rewrite (with_id_insert _ _ (create_input_no_id e data Hvalid)) in Hrun.
  fold newId x w' in Hrun.
  split; [|split; [exact Hrun|split; [reflexivity|split]]].
  - rewrite create_local. by rewrite (fmap_run _ _ _ _ _ Hrun).
  - apply list_run.
  - split.
    + unfold w'. by rewrite !getById_run.
    + intros Hfresh. unfold w'. rewrite getById_run. f_equal. f_equal.
      apply find_absent. intros y Hy.
      destruct (queried_by newId y) eqn:Hq; [|reflexivity].
      apply queried_by_string in Hq. by destruct (Hfresh y Hy).
Qed.

Lemma create_returns_record_file_unchanged_witness :
  Repository.create Location "V1StGXR8_Z5jdHi6B-myT" hq (world no_records [])
  = (inr (<["id" := VStr "V1StGXR8_Z5jdHi6B-myT"]> hq), world no_records []).
Proof.
  apply (create_returns_record_file_unchanged
           Location "V1StGXR8_Z5jdHi6B-myT" hq no_records []).
  vm_compute. reflexivity.
Defined.

(** ** Updating alice *)

(** C2: on the store holding only alice, whose id is the string ["1"],
    [updateUser] with id ["1"] throws "User not found" and publishes
    nothing, although the query [user] with the same id finds her: the
    update compares the stored id with [parseInt(id)], a number. *)
Theorem updateUser_alice_not_found :
  let patch : obj := {[ "email" := VStr "alice@new.com" ]} in
  Schema.valid_input Schema.updateUserInput patch = true
  ∧ Query.user "1" (world alice_only []) = (inr (Some alice), world alice_only [])
  ∧ Mutation.updateUser "1" patch (world alice_only [])
    = (inl (Error "User not found"), world alice_only []).
Proof. repeat split; vm_compute; reflexivity. Qed.

(** ** Subscription filters and delivery *)

Lemma received_enqueue (topic : string) (p : payload) (s : Subscriber) :
  received (enqueue topic p s)
  = if String.eqb (topic_of (field s)) topic
    then received s ++ (if passes (field s) (variables s) p then [p] else [])
    else received s.
Proof.
  unfold enqueue, received. destruct (String.eqb _ _); [|reflexivity]. simpl.
  rewrite List.filter_app. simpl.
  by destruct (passes (field s) (variables s) p).
Qed.

Lemma truthy_nonempty (U : string) : U ≠ "" → truthy (VStr U) = true.
Proof. intros H. simpl. by apply negb_true_iff, String.eqb_neq. Qed.

Section Filters.
Variable f : subscription.
Variable fn : filterFn.
Hypothesis Hfn : filter_of f = Some fn.

Lemma filterable_cases :
  (f = eventCreated ∧ fn = eventCreated_filter)
  ∨ (f = participantAdded ∧ fn = participantAdded_filter).
Proof. destruct f; simpl in Hfn; try discriminate; injection Hfn as <-; auto. Qed.

(** A falsy [user_id] argument: the filter passes without looking at
    the payload. *)
Lemma filter_falsy (p : payload) (args : obj) :
  truthy (get args "user_id") = false → fn p args = inr true.
Proof.
  intros H.
  destruct filterable_cases as [[_ ->] | [_ ->]];
    unfold eventCreated_filter, participantAdded_filter; by rewrite H.
Qed.

(** A non-empty string argument: the filter compares it with the
    [user_id] of the record published under the topic's name. *)
Lemma filter_nonempty (x : obj) (args : obj) (U : string) :
  U ≠ "" → args !! "user_id" = Some (VStr U) →
  fn {[ topic_of f := x ]} args
  = inr (strict_equals (get x "user_id") (VStr U)).
Proof.
  intros HU Hargs.
  assert (get args "user_id" = VStr U) as Hget by (unfold get; by rewrite Hargs).
  destruct filterable_cases as [[-> ->] | [-> ->]];
    unfold eventCreated_filter, participantAdded_filter;
    rewrite Hget, (truthy_nonempty U HU); simpl;
    by rewrite lookup_singleton_eq.
Qed.
End Filters.

Lemma get_is_string (x : obj) (k s : string) :
  strict_equals (get x k) (VStr s) = true ↔ x !! k = Some (VStr s).
Proof.
  rewrite strict_equals_VStr. unfold get.
  destruct (x !! k); simpl; [|split; discriminate].
  split; [by intros -> | by intros [= ->]].
Qed.

(** C8, as stated, fails: with the argument supplied as the empty string
    both filters pass a payload whose [user_id] is ["7"], which is not
    equal to the argument. *)
Lemma filter_passes_unequal_for_empty_argument :
  let args : obj := {[ "user_id" := VStr "" ]} in
  let x : obj := {[ "id" := VStr "e1"; "user_id" := VStr "7" ]} in
  eventCreated_filter {[ "eventCreated" := x ]} args = inr true
  ∧ participantAdded_filter {[ "participantAdded" := x ]} args = inr true
  ∧ strict_equals (get x "user_id") (get args "user_id") = false.
Proof. repeat split; vm_compute; reflexivity. Qed.

(** C8, amended: for both filterable topics and every record published
    under the topic's name, the filter passes when the [user_id] argument
    is not supplied, is null or is the empty string; when it is supplied
    as a non-empty string the filter passes exactly when the record's
    [user_id] is that same string. *)
Theorem filter_passes_by_truthiness_then_equality
    (f : subscription) (fn : filterFn) (x : obj) (args : obj) :
  filter_of f = Some fn →
  let p : payload := {[ topic_of f := x ]} in
  (args !! "user_id" = None → fn p args = inr true)
  ∧ (args !! "user_id" = Some VNull → fn p args = inr true)
  ∧ (args !! "user_id" = Some (VStr "") → fn p args = inr true)
  ∧ (∀ U, U ≠ "" → args !! "user_id" = Some (VStr U) →
       ∃ b, fn p args = inr b ∧ (b = true ↔ x !! "user_id" = Some (VStr U))).
Proof.
  intros Hfn p. repeat split.
  - intros H. apply (filter_falsy f fn Hfn). unfold get. by rewrite H.
  - intros H. apply (filter_falsy f fn Hfn). unfold get. by rewrite H.
  - intros H. apply (filter_falsy f fn Hfn). unfold get. by rewrite H.
  - intros U HU H. eexists. split.
    + apply (filter_nonempty f fn Hfn x args U HU H).
    + apply get_is_string.
Qed.

Lemma filter_passes_by_truthiness_then_equality_witness :
  ∃ b, eventCreated_filter {[ "eventCreated" := party ]} {[ "user_id" := VStr "7" ]}
       = inr b
       ∧ (b = true ↔ party !! "user_id" = Some (VStr "7")).
Proof.
  refine (proj2 (proj2 (proj2
    (filter_passes_by_truthiness_then_equality
       eventCreated eventCreated_filter party {[ "user_id" := VStr "7" ]} _))) "7" _ _).
  - reflexivity.
  - discriminate.
  - reflexivity.
Defined.

(** C10: for both filterable subscriptions, a subscriber whose [user_id]
    argument is the empty string gets the same verdict as one with no
    argument, namely pass, whatever the payload; so every payload
    published on the topic is received by that subscriber. *)
Theorem empty_user_id_receives_every_payload
    (f : subscription) (fn : filterFn) (p : payload) (s : Subscriber) :
  filter_of f = Some fn →
  field s = f →
  variables s !! "user_id" = Some (VStr "") →
  fn p (variables s) = inr true
  ∧ fn p (variables s) = fn p (delete "user_id" (variables s))
  ∧ received (enqueue (topic_of f) p s) = received s ++ [p]
  ∧ ∀ (w : World) (i : nat),
      pubsub w !! i = Some s →
      ∃ s', pubsub (publish (topic_of f) p w).2 !! i = Some s'
            ∧ received s' = received s ++ [p].
Proof.
  intros Hfn Hf Hargs.
  assert (fn p (variables s) = inr true) as Hpass.
  { apply (filter_falsy f fn Hfn). unfold get. by rewrite Hargs. }
  assert (received (enqueue (topic_of f) p s) = received s ++ [p]) as Hrecv.
  { rewrite received_enqueue, Hf, String.eqb_refl.
    unfold passes. by rewrite Hfn, Hpass. }
  split; [exact Hpass|]. split; [|split; [exact Hrecv|]].
  - rewrite Hpass. symmetry. apply (filter_falsy f fn Hfn).
    unfold get. by rewrite lookup_delete_eq.
  - intros w i Hi. exists (enqueue (topic_of f) p s).
    split; [|exact Hrecv]. simpl. by rewrite list_lookup_fmap, Hi.
Qed.

Lemma empty_user_id_receives_every_payload_witness :
  received (enqueue "participantAdded" {[ "participantAdded" := party ]}
              (listener participantAdded ""))
  = [ {[ "participantAdded" := party ]} ].
Proof.
  apply (empty_user_id_receives_every_payload
           participantAdded participantAdded_filter
           {[ "participantAdded" := party ]} (listener participantAdded ""));
    reflexivity.
Defined.

(** C3, as stated, fails: a subscriber to [eventCreated] whose argument
    is [user_id: ""] receives the event created for user ["7"]. *)
Lemma eventCreated_delivered_to_empty_user_id :
  party !! "user_id" = Some (VStr "7")
  ∧ received <$>
      pubsub (Mutation.addEvent "e1" party
                (world no_records [listener eventCreated ""])).2
    = [ [ {[ "eventCreated" := <["id" := VStr "e1"]> party ]} ] ].
Proof. split; vm_compute; reflexivity. Qed.

(** C3, amended: when the data file loads, a subscriber registered on
    [eventCreated] with a non-empty [user_id] argument U receives the
    notification of a following [addEvent] if and only if the input's
    [user_id] is U; for any other input it receives nothing new. *)
Theorem eventCreated_delivered_iff_same_user
    (nanoid : string) (data : obj) (doc : Document)
    (subs : list Subscriber) (i : nat) (s : Subscriber) (U : string) :
  U ≠ "" →
  subs !! i = Some s →
  field s = eventCreated →
  variables s !! "user_id" = Some (VStr U) →
  let event := with_id (VStr nanoid) data in
  let w' := (Mutation.addEvent nanoid data (world doc subs)).2 in
  ∃ s', pubsub w' !! i = Some s'
        ∧ field s' = field s ∧ variables s' = variables s
        ∧ (data !! "user_id" = Some (VStr U) →
           received s' = received s ++ [ {[ "eventCreated" := event ]} ])
        ∧ (data !! "user_id" ≠ Some (VStr U) → received s' = received s).
Proof.
  intros HU Hs Hf Hargs event w'.
  set (p := {[ "eventCreated" := event ]} : payload).
  assert (pubsub w' = enqueue "eventCreated" p <$> subs) as Hbus by reflexivity.
  exists (enqueue "eventCreated" p s).
  assert (passes (field s) (variables s) p
          = strict_equals (get data "user_id") (VStr U)) as Hpass.
  { assert (eventCreated_filter p (variables s)
            = inr (strict_equals (get event "user_id") (VStr U))) as Hfilter
      by exact (filter_nonempty eventCreated _ eq_refl event _ U HU Hargs).
    unfold passes. rewrite Hf. cbn [filter_of]. rewrite Hfilter.
    unfold get, event. rewrite with_id_other by done.
    destruct (strict_equals (default VUndefined (data !! "user_id")) (VStr U));
      reflexivity. }
  split; [by rewrite Hbus, list_lookup_fmap, Hs|].
  split; [unfold enqueue; by destruct (String.eqb _ _)|].
  split; [unfold enqueue; by destruct (String.eqb _ _)|].
  rewrite received_enqueue, Hpass, Hf. simpl.
  split; intros Hdata.
  - apply get_is_string in Hdata. by rewrite Hdata.
  - destruct (strict_equals _ _) eqn:Heq.
    + apply get_is_string in Heq. contradiction.
    + apply app_nil_r.
Qed.

Lemma eventCreated_delivered_iff_same_user_witness :
  ∃ s', pubsub (Mutation.addEvent "e1" party
                  (world no_records [listener eventCreated "7"])).2 !! 0%nat
        = Some s'
        ∧ received s' = [ {[ "eventCreated" := with_id (VStr "e1") party ]} ].
Proof.
  destruct (eventCreated_delivered_iff_same_user
              "e1" party no_records [listener eventCreated "7"] 0
              (listener eventCreated "7") "7")
    as (s' & Hs' & _ & _ & Hsame & _);
    [discriminate | reflexivity | reflexivity | reflexivity |].
  exists s'. split; [exact Hs' | apply Hsame; reflexivity].
Defined.

(** ** Update of an id that is not there *)

(** When the lookup of an update finds nothing (no stored id equals
    [parseInt(id)]), the update throws the entity's "not found" error
    and hands back the world it was given. *)
Lemma update_not_located_fails_atomically
    (e : entity) (id : string) (data : obj)
    (doc : Document) (subs : list Subscriber) :
  (∀ x, x ∈ collection e doc → located_by id x = false) →
  Repository.update e id data (world doc subs)
  = (inl (not_found e), world doc subs)
  ∧ Local.update e id data (world doc subs)
    = (inl (not_found e), world doc subs)
  ∧ Repository.list e (Repository.update e id data (world doc subs)).2
    = (inr (collection e doc), world doc subs).
Proof.
  intros Habsent.
  assert (Local.update e id data (world doc subs)
          = (inl (not_found e), world doc subs)) as Hrun
    by (apply update_absent, findIndex_absent, Habsent).
  assert (Repository.update e id data (world doc subs)
          = (inl (not_found e), world doc subs)) as Hobs
    by (rewrite update_local; by rewrite (fmap_run _ _ _ _ _ Hrun)).
  split; [exact Hobs|]. split; [exact Hrun|].
  rewrite Hobs. apply list_run.
Qed.

(** C4: the code breaks the claim.  The store holds only bob, whose id
    is the number 1; no record has the id ["1abc"] and the query [user]
    with that id finds none.  Yet [updateUser] with id ["1abc"] does not
    throw "User not found": [parseInt] reads the id as 1, bob is located,
    the patched record is returned, put in the in-memory array and
    published to the subscriber of [userUpdated]. *)
Theorem updateUser_unmatched_id_succeeds :
  let patch : obj := {[ "email" := VStr "bob@new.com" ]} in
  let bob' : obj :=
    {[ "id" := VNum (of_Z 1); "username" := VStr "bob";
       "email" := VStr "bob@new.com" ]} in
  let w := world bob_only [watcher userUpdated] in
  let w' := world bob_only
              [ {| field := userUpdated; variables := ∅;
                   queue := [ {[ "userUpdated" := bob' ]} ] |} ] in
  Schema.valid_input Schema.updateUserInput patch = true
  ∧ Query.users w = (inr [bob], w)
  ∧ Query.user "1abc" w = (inr None, w)
  ∧ Mutation.updateUser "1abc" patch w = (inr bob', w')
  ∧ Local.update User "1abc" patch w
    = (inr (bob', with_collection User [bob'] bob_only), w').
Proof. repeat split; vm_compute; reflexivity. Qed.

(** Records whose ids are strings are never located, whatever the id. *)
Lemma update_string_ids_not_found
    (e : entity) (id : string) (data : obj)
    (doc : Document) (subs : list Subscriber) :
  (∀ x, x ∈ collection e doc → ∃ s, x !! "id" = Some (VStr s)) →
  Repository.update e id data (world doc subs)
  = (inl (not_found e), world doc subs).
Proof.
  intros Hstr.
  assert (∀ x, x ∈ collection e doc → located_by id x = false) as Habsent.
  { intros x Hx. destruct (Hstr x Hx) as [s Hs].
    by apply (string_id_not_located id s). }
  rewrite update_local.
  by rewrite (fmap_run _ _ _ _ _ (update_absent e doc subs id data
    (findIndex_absent _ _ Habsent))).
Qed.

(** ** Delete all *)

(** C5, as stated, fails: on the store holding only alice,
    [deleteAllUsers] reports 1 and leaves the file as it was, so a second
    call reports 1 again, not 0, and [users] still lists alice. *)
Lemma deleteAllUsers_twice_same_count :
  let w := world alice_only [] in
  Mutation.deleteAllUsers w = (inr {[ "count" := VNum (of_Z 1) ]}, w)
  ∧ Mutation.deleteAllUsers (Mutation.deleteAllUsers w).2
    = (inr {[ "count" := VNum (of_Z 1) ]}, w)
  ∧ Query.users (Mutation.deleteAllUsers w).2 = (inr [alice], w).
Proof. repeat split; vm_compute; reflexivity. Qed.

(** C5, amended: for every entity type and every collection in a data
    file that loads, deleteAll succeeds with a count equal to the size of
    the collection and empties the copy held in memory for the call; the
    data file is not written, so the collection read afterwards is the
    same and a second deleteAll returns the same count. *)
Theorem deleteAll_counts_and_keeps_file
    (e : entity) (doc : Document) (subs : list Subscriber) :
  let w := world doc subs in
  let count : obj := {[ "count" := VNum (of_nat (length (collection e doc))) ]} in
  Repository.deleteAll e w = (inr count, w)
  ∧ Local.deleteAll e w = (inr (count, with_collection e [] doc), w)
  ∧ collection e (with_collection e [] doc) = []
  ∧ Repository.list e (Repository.deleteAll e w).2 = (inr (collection e doc), w)
  ∧ Repository.deleteAll e (Repository.deleteAll e w).2 = (inr count, w).
Proof.
  intros w count.
  assert (Repository.deleteAll e w = (inr count, w)) as Hobs.
  { unfold w. rewrite deleteAll_local.
    by rewrite (fmap_run _ _ _ _ _ (deleteAll_run e doc subs)). }
  split; [exact Hobs|]. split; [apply deleteAll_run|].
  split; [by destruct e|].
  rewrite Hobs. split; [apply list_run | exact Hobs].
Qed.

(** C7: for every entity type and every world, with or without a
    loadable data file, deleteAll hands back the world it was given: the
    queue of every subscriber, and so what each has received, is
    unchanged. *)
Theorem deleteAll_publishes_nothing (e : entity) (w : World) :
  (Repository.deleteAll e w).2 = w
  ∧ pubsub (Repository.deleteAll e w).2 = pubsub w
  ∧ received <$> pubsub (Repository.deleteAll e w).2 = received <$> pubsub w.
Proof.
  assert ((Repository.deleteAll e w).2 = w) as H.
  { destruct w as [[doc|] subs].
    - change ((Repository.deleteAll e (world doc subs)).2 = world doc subs).
      rewrite deleteAll_local.
      by rewrite (fmap_run _ _ _ _ _ (deleteAll_run e doc subs)).
    - by rewrite deleteAll_no_file. }
  rewrite H. auto.
Qed.

(** ** Delete, then get by id *)

(** C6, as stated, fails: on the store holding only the event with id
    1, [deleteEvent] with id ["1"] succeeds and returns that event, yet
    the file is not written, so the record is not removed from the
    persisted collection: [events] still lists it. *)
Lemma deleteEvent_then_still_stored :
  let w := world concert_only [] in
  Mutation.deleteEvent "1" w = (inr concert, w)
  ∧ Query.events (Mutation.deleteEvent "1" w).2 = (inr [concert], w).
Proof. split; vm_compute; reflexivity. Qed.

(** C6, amended: for every entity type, a successful delete returns the
    record it removed, as it stands in the data file, removes it from the
    copy of the collection held in memory for the call and publishes it
    on the Deleted topic; the data file is not written, so the list
    query still holds the record and a following get-by-id on the same
    id returns what it returned before the delete. *)
Theorem delete_returns_snapshot_file_unchanged
    (e : entity) (id : string) (doc : Document) (subs : list Subscriber)
    (x : obj) (w' : World) :
  Repository.delete e id (world doc subs) = (inr x, w') →
  w' = world doc (enqueue (topic_of (deleted e)) {[ topic_of (deleted e) := x ]}
                    <$> subs)
  ∧ (∃ i : nat,
       collection e doc !! i = Some x
       ∧ Local.delete e id (world doc subs)
         = (inr (x, with_collection e (splice (collection e doc) i 1) doc), w'))
  ∧ x ∈ collection e doc
  ∧ Repository.list e w' = (inr (collection e doc), w')
  ∧ (Repository.getById e id w').1 = (Repository.getById e id (world doc subs)).1.
Proof.
  intros Hdel. rewrite delete_local in Hdel.
  destruct (findIndex_cases (located_by id) (collection e doc))
    as [[Hnone _] | (i & x0 & Hi & Hx0 & Hp)].
  - rewrite (fmap_run _ _ _ _ _ (delete_absent e doc subs id Hnone)) in Hdel.
    discriminate.
  - pose proof (delete_found e doc subs id i x0 Hi Hx0) as Hrun.
    rewrite (fmap_run _ _ _ _ _ Hrun) in Hdel. simpl in Hdel.
    injection Hdel as <- <-.
    split; [reflexivity|]. split; [by exists i|].
    split; [by apply list_elem_of_lookup_2 in Hx0|].
    split; [apply list_run|].
    by rewrite !getById_run.
Qed.

Lemma delete_returns_snapshot_file_unchanged_witness :
  let w := world carol_recital [] in
  (Mutation.deleteUser "7" w = (inr carol, w)
   ∧ Repository.list User w = (inr [bob; carol], w))
  ∧ (Mutation.deleteEvent "2" w = (inr recital, w)
     ∧ Repository.list Event w = (inr [concert; recital], w))
  ∧ (Mutation.deleteLocation "5" w = (inr depot, w)
     ∧ Repository.list Location w = (inr [depot], w))
  ∧ (Mutation.deleteParticipant "3" w = (inr seat, w)
     ∧ Repository.list Participant w = (inr [seat], w)).
Proof.
  intros w.
  assert (Mutation.deleteUser "7" w = (inr carol, w)) as Hu
    by (vm_compute; reflexivity).
  assert (Mutation.deleteEvent "2" w = (inr recital, w)) as He
    by (vm_compute; reflexivity).
  assert (Mutation.deleteLocation "5" w = (inr depot, w)) as Hl
    by (vm_compute; reflexivity).
  assert (Mutation.deleteParticipant "3" w = (inr seat, w)) as Hp
    by (vm_compute; reflexivity).
  split; [split; [exact Hu|]|split; [split; [exact He|]|split; split]];
    try assumption.
  - exact (proj1 (proj2 (proj2 (proj2
      (delete_returns_snapshot_file_unchanged
         User "7" carol_recital [] carol w Hu))))).
  - exact (proj1 (proj2 (proj2 (proj2
      (delete_returns_snapshot_file_unchanged
         Event "2" carol_recital [] recital w He))))).
  - exact (proj1 (proj2 (proj2 (proj2
      (delete_returns_snapshot_file_unchanged
         Location "5" carol_recital [] depot w Hl))))).
  - exact (proj1 (proj2 (proj2 (proj2
      (delete_returns_snapshot_file_unchanged
         Participant "3" carol_recital [] seat w Hp))))).
Defined.

(** ** A patch that carries an id *)

(** C9, as stated, fails: a successful [updateLocation] whose patch has
    [id = "zzz"] returns the record with that id, yet the file is not
    written, so the stored record's id is not overwritten: [locations]
    still returns the record with id 5. *)
Lemma updateLocation_stored_id_unchanged :
  let w := world depot_only [] in
  Mutation.updateLocation "5" yard_patch w = (inr (spread depot yard_patch), w)
  ∧ spread depot yard_patch !! "id" = Some (VStr "zzz")
  ∧ Query.locations (Mutation.updateLocation "5" yard_patch w).2
    = (inr [depot], w)
  ∧ depot !! "id" = Some (VNum (of_Z 5)).
Proof. repeat split; vm_compute; reflexivity. Qed.

(** C9, amended: [updateLocationInput] and [updateParticipantInput] have
    a nullable [id] field, so a patch made of an id alone is a valid
    input; a successful [updateLocation] or [updateParticipant] whose
    patch has [id = v] returns and publishes the record it worked on with
    its id replaced by [v] (the merge does not protect the id) and puts
    that record in the slot of the in-memory array; the data file is not
    written, so the list query returns the collection as it was.  The id
    returned can differ from the id argument. *)
Theorem update_patch_overwrites_id
    (e : entity) (id : string) (data : obj) (v : string)
    (doc : Document) (subs : list Subscriber) (x : obj) (w' : World) :
  e = Location ∨ e = Participant →
  data !! "id" = Some (VStr v) →
  Repository.update e id data (world doc subs) = (inr x, w') →
  Schema.lookup_field (update_input e) "id"
  = Some (Schema.InputField "id" Schema.TID false)
  ∧ Schema.valid_input (update_input e) {[ "id" := VStr v ]} = true
  ∧ x !! "id" = Some (VStr v)
  ∧ w' = world doc (enqueue (topic_of (updated e)) {[ topic_of (updated e) := x ]}
                      <$> subs)
  ∧ (∃ (i : nat) (old : obj),
       collection e doc !! i = Some old
       ∧ x = spread old data
       ∧ Local.update e id data (world doc subs)
         = (inr (x, with_collection e (<[i := x]> (collection e doc)) doc), w'))
  ∧ Repository.list e w' = (inr (collection e doc), w').
Proof.
  intros He Hid Hupd.
  split; [by destruct He as [-> | ->]|].
  split.
  { unfold Schema.valid_input. rewrite map_to_list_singleton.
    by destruct He as [-> | ->]. }
  rewrite update_local in Hupd.
  destruct (findIndex_cases (located_by id) (collection e doc))
    as [[Hnone _] | (i & old & Hi & Hold & Hp)].
  - rewrite (fmap_run _ _ _ _ _ (update_absent e doc subs id data Hnone)) in Hupd.
    discriminate.
  - pose proof (update_found e doc subs id data i old Hi Hold) as Hrun.
    rewrite (fmap_run _ _ _ _ _ Hrun) in Hupd. simpl in Hupd.
    injection Hupd as <- <-.
    split; [by apply spread_lookup_patch|].
    split; [reflexivity|].
    split; [by exists i, old|].
    apply list_run.
Qed.

Lemma update_patch_overwrites_id_witness :
  "zzz" ≠ "5" ∧ "zzz" ≠ "3"
  ∧ Mutation.updateLocation "5" yard_patch (world depot_only [])
    = (inr (spread depot yard_patch), world depot_only [])
  ∧ spread depot yard_patch !! "id" = Some (VStr "zzz")
  ∧ Mutation.updateParticipant "3" id_patch (world carol_recital [])
    = (inr (spread seat id_patch), world carol_recital [])
  ∧ spread seat id_patch !! "id" = Some (VStr "zzz").
Proof.
  split; [discriminate|]. split; [discriminate|].
  assert (Mutation.updateLocation "5" yard_patch (world depot_only [])
          = (inr (spread depot yard_patch), world depot_only [])) as Hloc
    by (vm_compute; reflexivity).
  assert (Mutation.updateParticipant "3" id_patch (world carol_recital [])
          = (inr (spread seat id_patch), world carol_recital [])) as Hpar
    by (vm_compute; reflexivity).
  split; [exact Hloc|]. split.
  - apply (update_patch_overwrites_id
             Location "5" yard_patch "zzz" depot_only []
             (spread depot yard_patch) (world depot_only []));
      [left; reflexivity | reflexivity | exact Hloc].
  - split; [exact Hpar|].
    apply (update_patch_overwrites_id
             Participant "3" id_patch "zzz" carol_recital []
             (spread seat id_patch) (world carol_recital []));
      [right; reflexivity | reflexivity | exact Hpar].
Defined.

(** * Further properties of the resolvers *)

(** ** First matches *)

Section FirstMatch.
Context {A : Type}.
Implicit Types (p : A → bool) (xs : list A).

Lemma findIndex_from_first p xs (k : Z) (i : nat) :
  0 ≤ k → findIndex_from p xs k = k + Z.of_nat i →
  ∀ (j : nat) y, (j < i)%nat → xs !! j = Some y → p y = false.
Proof.
  revert k i. induction xs as [|z zs IH]; intros k i Hk; simpl.
  - lia.
  - destruct (p z) eqn:Hz.
    + intros Hi j y Hj. lia.
    + intros Hi j y Hj Hy.
      destruct (findIndex_from_cases p zs (k + 1)) as [[Hm _] | (i' & _ & Hi' & _)];
        [lia|].
      destruct i as [|i0]; [lia|].
      destruct j as [|j0]; [simpl in Hy; congruence|].
      apply (IH (k + 1) i0 ltac:(lia) ltac:(lia) j0 y ltac:(lia) Hy).
Qed.

Lemma findIndex_first p xs (i : nat) :
  findIndex p xs = Z.of_nat i →
  ∀ (j : nat) y, (j < i)%nat → xs !! j = Some y → p y = false.
Proof. intros H. apply (findIndex_from_first p xs 0 i); [lia | exact H]. Qed.

Lemma find_cases p xs :
  (find p xs = None ∧ ∀ x, x ∈ xs → p x = false)
  ∨ (∃ (i : nat) x,
       find p xs = Some x ∧ xs !! i = Some x ∧ p x = true
       ∧ ∀ (j : nat) y, (j < i)%nat → xs !! j = Some y → p y = false).
Proof.
  induction xs as [|z zs IH]; simpl.
  - left. split; [reflexivity|]. intros x Hx. inversion Hx.
  - destruct (p z) eqn:Hz.
    + right. exists 0%nat, z. repeat split; [assumption|]. intros j y Hj. lia.
    + destruct IH as [[Hnone Hall] | (i & x & Hf & Hx & Hp & Hmin)].
      * left. split; [assumption|].
        intros x Hx. apply elem_of_cons in Hx as [-> | Hx]; auto.
      * right. exists (S i), x. repeat split; try assumption.
        intros [|j] y Hj Hy; [simpl in Hy; congruence|].
        apply (Hmin j y); [lia | exact Hy].
Qed.

Lemma find_present p xs x :
  x ∈ xs → p x = true → ∃ y, find p xs = Some y ∧ y ∈ xs ∧ p y = true.
Proof.
  intros Hx Hp.
  destruct (find_cases p xs) as [[_ Hall] | (i & y & Hf & Hy & Hpy & _)].
  - rewrite (Hall x Hx) in Hp. discriminate.
  - exists y. split; [assumption|]. split; [|assumption].
    by apply list_elem_of_lookup_2 in Hy.
Qed.

Lemma findIndex_ext p q xs :
  (∀ x, p x = q x) → findIndex p xs = findIndex q xs.
Proof.
  intros Hpq. unfold findIndex. generalize 0.
  induction xs as [|z zs IH]; intros k; simpl; [reflexivity|].
  rewrite Hpq, IH. reflexivity.
Qed.
End FirstMatch.

(** ** Strict equality is symmetric and transitive *)

Lemma number_equals_sym (x y : number) : number_equals x y = number_equals y x.
Proof.
  destruct x as [|a|p], y as [|b|q]; simpl; try reflexivity.
  - by destruct a, b.
  - apply eq_true_iff_eq. rewrite !Qeq_bool_iff. split; intros H; by symmetry.
Qed.

Lemma number_equals_trans (x y z : number) :
  number_equals x y = true → number_equals y z = true →
  number_equals x z = true.
Proof.
  destruct x as [|a|p], y as [|b|q], z as [|c|r]; simpl; try discriminate.
  - destruct a, b, c; simpl; congruence.
  - rewrite !Qeq_bool_iff. intros H1 H2. by rewrite H1.
Qed.

Lemma strict_equals_sym (a b : value) : strict_equals a b = strict_equals b a.
Proof.
  destruct a, b; simpl; try reflexivity.
  - by destruct b0, b.
  - apply number_equals_sym.
  - apply String.eqb_sym.
Qed.

Lemma strict_equals_trans (a b c : value) :
  strict_equals a b = true → strict_equals b c = true →
  strict_equals a c = true.
Proof.
  destruct a, b, c; simpl; try discriminate; try reflexivity.
  - destruct b0, b, b1; simpl; congruence.
  - apply number_equals_trans.
  - rewrite !String.eqb_eq. congruence.
Qed.

(** ** When the data file does not load *)

(** X1: when [data.json] is missing or is not JSON, every query, every
    mutation and every field resolver fails with the read error before
    doing anything else: the world is handed back as it was, and nothing
    is published. *)
Theorem unreadable_file_fails_every_resolver
    (e : entity) (subs : list Subscriber)
    (id nanoid : string) (data parent : obj) (v : value) :
  let w := {| data_json := None; pubsub := subs |} in
  Repository.list e w = (inl IOError, w)
  ∧ Repository.getById e id w = (inl IOError, w)
  ∧ Repository.create e nanoid data w = (inl IOError, w)
  ∧ Repository.update e id data w = (inl IOError, w)
  ∧ Repository.delete e id w = (inl IOError, w)
  ∧ Repository.deleteAll e w = (inl IOError, w)
  ∧ User.events parent w = (inl IOError, w)
  ∧ User.event parent v w = (inl IOError, w)
  ∧ Event.user parent w = (inl IOError, w)
  ∧ Event.participants parent w = (inl IOError, w)
  ∧ Event.location parent w = (inl IOError, w)
  ∧ Participant.user parent w = (inl IOError, w)
  ∧ Participant.event parent w = (inl IOError, w).
Proof. destruct e; repeat split; reflexivity. Qed.

(** ** Get by id *)

(** X2: when the file loads, get-by-id returns the first record, in file
    order, whose id is the string asked for, and not-found exactly when
    no record has that string as its id. *)
Theorem getById_returns_first_with_string_id
    (e : entity) (id : string) (doc : Document) (subs : list Subscriber) :
  (∃ (i : nat) x,
     Repository.getById e id (world doc subs) = (inr (Some x), world doc subs)
     ∧ collection e doc !! i = Some x
     ∧ x !! "id" = Some (VStr id)
     ∧ ∀ (j : nat) y, (j < i)%nat → collection e doc !! j = Some y →
                      y !! "id" ≠ Some (VStr id))
  ∨ (Repository.getById e id (world doc subs) = (inr None, world doc subs)
     ∧ ∀ y, y ∈ collection e doc → y !! "id" ≠ Some (VStr id)).
Proof.
  rewrite getById_run.
  destruct (find_cases (queried_by id) (collection e doc))
    as [[Hnone Hall] | (i & x & Hf & Hx & Hp & Hmin)].
  - right. rewrite Hnone. split; [reflexivity|].
    intros y Hy Hid. apply queried_by_string in Hid.
    rewrite (Hall y Hy) in Hid. discriminate.
  - left. exists i, x. rewrite Hf. split; [reflexivity|].
    split; [assumption|]. split; [by apply queried_by_string|].
    intros j y Hj Hy Hid. apply queried_by_string in Hid.
    rewrite (Hmin j y Hj Hy) in Hid. discriminate.
Qed.

(** X3: a collection whose ids are all numbers, the only ids an update
    or a delete can locate, answers not-found to every get-by-id. *)
Theorem getById_never_finds_numeric_ids
    (e : entity) (id : string) (doc : Document) (subs : list Subscriber) :
  (∀ x, x ∈ collection e doc → ∃ n, x !! "id" = Some (VNum n)) →
  Repository.getById e id (world doc subs) = (inr None, world doc subs).
Proof.
  intros Hnum. rewrite getById_run. f_equal. f_equal.
  apply find_absent. intros x Hx. destruct (Hnum x Hx) as [n Hn].
  destruct (queried_by id x) eqn:Hq; [|reflexivity].
  apply queried_by_string in Hq. congruence.
Qed.

Lemma getById_never_finds_numeric_ids_witness :
  Repository.getById User "1" (world bob_only []) = (inr None, world bob_only []).
Proof.
  apply (getById_never_finds_numeric_ids User "1" bob_only []).
  intros x Hx. apply list_elem_of_singleton in Hx. subst x.
  exists (of_Z 1). reflexivity.
Defined.

(** X4: a collection whose ids are all strings, the only ids a create
    assigns, can be neither updated nor deleted: both fail with the
    entity's "not found" error for every id and leave the world as it
    was. *)
Theorem string_ids_never_updated_or_deleted
    (e : entity) (id : string) (data : obj)
    (doc : Document) (subs : list Subscriber) :
  (∀ x, x ∈ collection e doc → ∃ s, x !! "id" = Some (VStr s)) →
  Repository.update e id data (world doc subs)
  = (inl (not_found e), world doc subs)
  ∧ Repository.delete e id (world doc subs)
    = (inl (not_found e), world doc subs).
Proof.
  intros Hstr.
  assert (findIndex (located_by id) (collection e doc) = -1) as Hnone.
  { apply findIndex_absent. intros x Hx. destruct (Hstr x Hx) as [s Hs].
    by apply (string_id_not_located id s). }
  split.
  - rewrite update_local.
    by rewrite (fmap_run _ _ _ _ _ (update_absent e doc subs id data Hnone)).
  - rewrite delete_local.
    by rewrite (fmap_run _ _ _ _ _ (delete_absent e doc subs id Hnone)).
Qed.

Lemma string_ids_never_updated_or_deleted_witness :
  Repository.delete User "1" (world alice_only [])
  = (inl (Error "User not found"), world alice_only []).
Proof.
  apply (string_ids_never_updated_or_deleted User "1" ∅ alice_only []).
  intros x Hx. apply list_elem_of_singleton in Hx. subst x.
  exists "1". reflexivity.
Defined.

(** ** The in-memory document *)

Lemma collection_with_collection (e : entity) (xs : list obj) (d : Document) :
  collection e (with_collection e xs d) = xs.
Proof. by destruct e. Qed.

Lemma collection_with_collection_ne (e e' : entity) (xs : list obj) (d : Document) :
  e' ≠ e → collection e' (with_collection e xs d) = collection e' d.
Proof. by destruct e, e'. Qed.

Lemma with_collection_same (e : entity) (d : Document) :
  with_collection e (collection e d) d = d.
Proof. by destruct e, d. Qed.

Lemma spread_empty_patch (x : obj) : spread x ∅ = x.
Proof. unfold spread. apply (left_id_L ∅ (∪)). Qed.

Lemma spread_lookup (x data : obj) (k : string) :
  spread x data !! k
  = match data !! k with Some v => Some v | None => x !! k end.
Proof.
  destruct (data !! k) as [v|] eqn:Hk.
  - by apply spread_lookup_patch.
  - by apply spread_lookup_kept.
Qed.

(** What a successful update or delete located. *)
Lemma update_success (e : entity) (id : string) (data : obj)
    (doc : Document) (subs : list Subscriber) (r : obj * Document) (w' : World) :
  Local.update e id data (world doc subs) = (inr r, w') →
  ∃ (i : nat) old,
    collection e doc !! i = Some old
    ∧ located_by id old = true
    ∧ (∀ (j : nat) y, (j < i)%nat → collection e doc !! j = Some y →
                      located_by id y = false)
    ∧ r = (spread old data,
           with_collection e (<[i := spread old data]> (collection e doc)) doc)
    ∧ w' = world doc (enqueue (topic_of (updated e))
                        {[ topic_of (updated e) := spread old data ]} <$> subs).
Proof.
  intros Hrun.
  destruct (findIndex_cases (located_by id) (collection e doc))
    as [[Hnone _] | (i & old & Hi & Hold & Hp)].
  - rewrite (update_absent e doc subs id data Hnone) in Hrun. discriminate.
  - rewrite (update_found e doc subs id data i old Hi Hold) in Hrun.
    injection Hrun as <- <-. exists i, old.
    split; [assumption|]. split; [assumption|].
    split; [exact (findIndex_first _ _ _ Hi)|]. split; reflexivity.
Qed.

Lemma delete_success (e : entity) (id : string)
    (doc : Document) (subs : list Subscriber) (r : obj * Document) (w' : World) :
  Local.delete e id (world doc subs) = (inr r, w') →
  ∃ (i : nat) x,
    collection e doc !! i = Some x
    ∧ located_by id x = true
    ∧ (∀ (j : nat) y, (j < i)%nat → collection e doc !! j = Some y →
                      located_by id y = false)
    ∧ r = (x, with_collection e (splice (collection e doc) i 1) doc)
    ∧ w' = world doc (enqueue (topic_of (deleted e))
                        {[ topic_of (deleted e) := x ]} <$> subs).
Proof.
  intros Hrun.
  destruct (findIndex_cases (located_by id) (collection e doc))
    as [[Hnone _] | (i & x & Hi & Hx & Hp)].
  - rewrite (delete_absent e doc subs id Hnone) in Hrun. discriminate.
  - rewrite (delete_found e doc subs id i x Hi Hx) in Hrun.
    injection Hrun as <- <-. exists i, x.
    split; [assumption|]. split; [assumption|].
    split; [exact (findIndex_first _ _ _ Hi)|]. split; reflexivity.
Qed.

Lemma observed_success {A B} (f : A → B) (m : Resolver A) (w w' : World) (y : B) :
  (f <$> m) w = (inr y, w') → ∃ r, m w = (inr r, w') ∧ y = f r.
Proof.
  unfold fmap, Resolver_fmap. destruct (m w) as [[err|r] w0]; [discriminate|].
  intros [= <- <-]. by exists r.
Qed.

(** ** Update *)

(** X5: a successful update works on the first record, in file order,
    whose id equals [parseInt(id)]; in the record it returns and
    publishes, every property of the patch has the patch's value (a null
    included) and every other property has the located record's value. *)
Theorem update_merges_patch_over_first_located
    (e : entity) (id : string) (data : obj)
    (doc : Document) (subs : list Subscriber) (x : obj) (w' : World) :
  Repository.update e id data (world doc subs) = (inr x, w') →
  ∃ (i : nat) old,
    collection e doc !! i = Some old
    ∧ located_by id old = true
    ∧ (∀ (j : nat) y, (j < i)%nat → collection e doc !! j = Some y →
                      located_by id y = false)
    ∧ (∀ k, x !! k = match data !! k with Some v => Some v | None => old !! k end)
    ∧ w' = world doc (enqueue (topic_of (updated e))
                        {[ topic_of (updated e) := x ]} <$> subs).
Proof.
  intros Hupd. rewrite update_local in Hupd.
  apply observed_success in Hupd as (r & Hrun & ->).
  apply update_success in Hrun as (i & old & Hold & Hp & Hmin & -> & ->).
  exists i, old. repeat split; try assumption.
  intros k. apply spread_lookup.
Qed.

Lemma update_merges_patch_over_first_located_witness :
  ∃ (i : nat) old,
    depot_only.(Data.locations) !! i = Some old
    ∧ spread depot yard_patch !! "desc" = old !! "desc".
Proof.
  destruct (update_merges_patch_over_first_located
              Location "5" yard_patch depot_only []
              (spread depot yard_patch) (world depot_only []))
    as (i & old & Hold & _ & _ & Hk & _); [vm_compute; reflexivity|].
  exists i, old. split; [exact Hold|]. exact (Hk "desc").
Defined.

(** X6: an update with the empty patch that locates a record returns
    that record unchanged and leaves the in-memory document equal to the
    one read, yet still publishes the record on the Updated topic. *)
Theorem update_with_empty_patch_returns_record
    (e : entity) (id : string)
    (doc : Document) (subs : list Subscriber) (x : obj) (w' : World) :
  Repository.update e id ∅ (world doc subs) = (inr x, w') →
  x ∈ collection e doc
  ∧ located_by id x = true
  ∧ Local.update e id ∅ (world doc subs) = (inr (x, doc), w')
  ∧ w' = world doc (enqueue (topic_of (updated e))
                      {[ topic_of (updated e) := x ]} <$> subs).
Proof.
  intros Hupd. rewrite update_local in Hupd.
  apply observed_success in Hupd as (r & Hrun & ->).
  pose proof Hrun as Hrun'.
  apply update_success in Hrun' as (i & old & Hold & Hp & _ & -> & ->).
  rewrite spread_empty_patch in *. simpl.
  rewrite (list_insert_id _ _ _ Hold), with_collection_same in Hrun.
  split; [by apply list_elem_of_lookup_2 in Hold|].
  split; [assumption|]. split; [exact Hrun | reflexivity].
Qed.

Lemma update_with_empty_patch_returns_record_witness :
  Local.update Location "5" ∅ (world depot_only [])
  = (inr (depot, depot_only), world depot_only []).
Proof.
  apply (update_with_empty_patch_returns_record
           Location "5" depot_only [] depot (world depot_only [])).
  vm_compute. reflexivity.
Defined.

(** X7: in the array held in memory, a successful update replaces the
    slot of the first located record by the merged record and nothing
    else: the array becomes the one read with that slot overwritten, so
    the length is the same and every other slot is as read. *)
Theorem update_replaces_one_slot_in_memory
    (e : entity) (id : string) (data : obj)
    (doc : Document) (subs : list Subscriber)
    (x : obj) (doc' : Document) (w' : World) :
  Local.update e id data (world doc subs) = (inr (x, doc'), w') →
  ∃ (i : nat) old,
    collection e doc !! i = Some old
    ∧ located_by id old = true
    ∧ (∀ (j : nat) y, (j < i)%nat → collection e doc !! j = Some y →
                      located_by id y = false)
    ∧ x = spread old data
    ∧ collection e doc' = <[i := x]> (collection e doc)
    ∧ length (collection e doc') = length (collection e doc)
    ∧ collection e doc' !! i = Some x
    ∧ ∀ j : nat, j ≠ i → collection e doc' !! j = collection e doc !! j.
Proof.
  intros Hrun.
  apply update_success in Hrun as (i & old & Hold & Hp & Hmin & [= -> ->] & _).
  rewrite collection_with_collection.
  exists i, old. repeat split; try assumption.
  - apply length_insert.
  - apply list_lookup_insert_eq. by apply lookup_lt_Some in Hold.
  - intros j Hj. by apply list_lookup_insert_ne.
Qed.

Lemma update_replaces_one_slot_in_memory_witness :
  ∃ (i : nat) old,
    [bob; carol] !! i = Some old
    ∧ located_by "7" old = true
    ∧ [bob; spread carol {[ "email" := VStr "carol@new.com" ]}]
      = <[i := spread carol {[ "email" := VStr "carol@new.com" ]}]> [bob; carol].
Proof.
  destruct (update_replaces_one_slot_in_memory
              User "7" {[ "email" := VStr "carol@new.com" ]} carol_recital []
              (spread carol {[ "email" := VStr "carol@new.com" ]})
              (with_collection User
                 [bob; spread carol {[ "email" := VStr "carol@new.com" ]}]
                 carol_recital)
              (world carol_recital []))
    as (i & old & Hold & Hp & _ & _ & Harr & _); [vm_compute; reflexivity|].
  exists i, old. split; [exact Hold|]. split; [exact Hp | exact Harr].
Defined.

(** ** Delete *)

(** X8: a successful delete returns the first record, in file order,
    whose id equals [parseInt(id)], and in the array held in memory it
    removes that one slot: the records before and after it stay, in
    order, and the length drops by one. *)
Theorem delete_removes_first_located_in_memory
    (e : entity) (id : string)
    (doc : Document) (subs : list Subscriber)
    (x : obj) (doc' : Document) (w' : World) :
  Local.delete e id (world doc subs) = (inr (x, doc'), w') →
  ∃ i : nat,
    collection e doc !! i = Some x
    ∧ located_by id x = true
    ∧ (∀ (j : nat) y, (j < i)%nat → collection e doc !! j = Some y →
                      located_by id y = false)
    ∧ collection e doc' = take i (collection e doc) ++ drop (S i) (collection e doc)
    ∧ S (length (collection e doc')) = length (collection e doc).
Proof.
  intros Hrun.
  apply delete_success in Hrun as (i & x0 & Hx & Hp & Hmin & [= -> ->] & _).
  exists i. rewrite collection_with_collection. unfold splice.
  replace (i + 1)%nat with (S i) by lia.
  repeat split; try assumption.
  apply lookup_lt_Some in Hx.
  rewrite length_app, length_take, length_drop. lia.
Qed.

Lemma delete_removes_first_located_in_memory_witness :
  ∃ i : nat, Data.events concert_and_picnic !! i = Some concert
             ∧ [picnic] = take i [concert; picnic] ++ drop (S i) [concert; picnic].
Proof.
  destruct (delete_removes_first_located_in_memory
              Event "1" concert_and_picnic [] concert
              (with_collection Event [picnic] concert_and_picnic)
              (world concert_and_picnic []))
    as (i & Hx & _ & _ & Hrest & _); [vm_compute; reflexivity|].
  exists i. split; [exact Hx | exact Hrest].
Defined.

(** X9: no mutation cascades: the in-memory document a create, update,
    delete or deleteAll of one entity type ends with holds the other
    three collections exactly as read, whatever foreign keys point at
    the records touched. *)
Theorem mutations_leave_other_collections
    (e e' : entity) (id nanoid : string) (data : obj)
    (doc : Document) (subs : list Subscriber)
    (x : obj) (doc' : Document) (w' : World) :
  e' ≠ e →
  Local.create e nanoid data (world doc subs) = (inr (x, doc'), w')
  ∨ Local.update e id data (world doc subs) = (inr (x, doc'), w')
  ∨ Local.delete e id (world doc subs) = (inr (x, doc'), w')
  ∨ Local.deleteAll e (world doc subs) = (inr (x, doc'), w') →
  collection e' doc' = collection e' doc.
Proof.
  intros Hne [Hrun | [Hrun | [Hrun | Hrun]]].
  - rewrite create_run in Hrun. injection Hrun as _ <- _.
    by apply collection_with_collection_ne.
  - apply update_success in Hrun as (i & old & _ & _ & _ & [= _ ->] & _).
    by apply collection_with_collection_ne.
  - apply delete_success in Hrun as (i & x0 & _ & _ & _ & [= _ ->] & _).
    by apply collection_with_collection_ne.
  - rewrite deleteAll_run in Hrun. injection Hrun as _ <- _.
    by apply collection_with_collection_ne.
Qed.

Lemma mutations_leave_other_collections_witness :
  collection Event (with_collection User [] carol_recital)
  = collection Event carol_recital.
Proof.
  apply (mutations_leave_other_collections
           User Event "" "" ∅ carol_recital []
           {[ "count" := VNum (of_Z 2) ]}
           (with_collection User [] carol_recital) (world carol_recital []));
    [discriminate|].
  right. right. right. vm_compute. reflexivity.
Defined.

(** ** The event hub *)

Lemma topic_of_inj (f g : subscription) :
  String.eqb (topic_of f) (topic_of g) = true ↔ f = g.
Proof.
  split; [|intros ->; apply String.eqb_refl].
  destruct f, g; simpl; first [reflexivity | discriminate].
Qed.

Lemma enqueue_own (f : subscription) (p : payload) (s : Subscriber) :
  field s = f →
  enqueue (topic_of f) p s
  = {| field := field s; variables := variables s; queue := queue s ++ [p] |}.
Proof. intros <-. unfold enqueue. by rewrite String.eqb_refl. Qed.

Lemma enqueue_other (f : subscription) (p : payload) (s : Subscriber) :
  field s ≠ f → enqueue (topic_of f) p s = s.
Proof.
  intros Hne. unfold enqueue.
  destruct (String.eqb _ _) eqn:Heq; [|reflexivity].
  apply topic_of_inj in Heq. contradiction.
Qed.

Lemma queues_grow_refl (w : World) : queues_grow w w.
Proof.
  split; [reflexivity|]. apply Forall_Forall2_diag, Forall_forall.
  intros s _. repeat split. reflexivity.
Qed.

Lemma queues_grow_trans (w1 w2 w3 : World) :
  queues_grow w1 w2 → queues_grow w2 w3 → queues_grow w1 w3.
Proof.
  intros [Hd1 Hq1] [Hd2 Hq2]. split; [congruence|].
  eapply Forall2_trans; [|exact Hq1|exact Hq2].
  intros s1 s2 s3 (Hf1 & Hv1 & Hp1) (Hf2 & Hv2 & Hp2).
  repeat split; [congruence..|]. by transitivity (queue s2).
Qed.

Lemma queues_grow_enqueue (topic : string) (p : payload)
    (doc : option Document) (subs : list Subscriber) :
  queues_grow {| data_json := doc; pubsub := subs |}
              {| data_json := doc; pubsub := enqueue topic p <$> subs |}.
Proof.
  split; [reflexivity|]. simpl. apply Forall2_fmap_r.
  apply Forall_Forall2_diag, Forall_forall. intros s _.
  unfold compose, enqueue. destruct (String.eqb (topic_of (field s)) topic); simpl.
  - repeat split. by apply prefix_app_r.
  - repeat split. reflexivity.
Qed.

(** X10: whatever its arguments and whatever the world, no query,
    mutation or field resolver writes the data file, adds, drops or
    reorders a subscriber, or changes a subscriber's field or arguments;
    a queue only ever gets payloads appended. *)
Theorem resolvers_only_append_to_queues
    (e : entity) (id nanoid : string) (data parent : obj) (v : value)
    (w : World) :
  queues_grow w (Repository.list e w).2
  ∧ queues_grow w (Repository.getById e id w).2
  ∧ queues_grow w (Repository.create e nanoid data w).2
  ∧ queues_grow w (Repository.update e id data w).2
  ∧ queues_grow w (Repository.delete e id w).2
  ∧ queues_grow w (Repository.deleteAll e w).2
  ∧ queues_grow w (User.events parent w).2
  ∧ queues_grow w (User.event parent v w).2
  ∧ queues_grow w (Event.user parent w).2
  ∧ queues_grow w (Event.participants parent w).2
  ∧ queues_grow w (Event.location parent w).2
  ∧ queues_grow w (Participant.user parent w).2
  ∧ queues_grow w (Participant.event parent w).2.
Proof.
  destruct w as [[doc|] subs].
  - change {| data_json := Some doc; pubsub := subs |} with (world doc subs).
    split; [rewrite list_run; apply queues_grow_refl|].
    split; [rewrite getById_run; apply queues_grow_refl|].
    split.
    { rewrite create_local.
      rewrite (fmap_run _ _ _ _ _ (create_run e doc subs nanoid data)).
      apply queues_grow_enqueue. }
    split.
    { rewrite update_local.
      destruct (findIndex_cases (located_by id) (collection e doc))
        as [[Hnone _] | (i & old & Hi & Hold & _)].
      - rewrite (fmap_run _ _ _ _ _ (update_absent e doc subs id data Hnone)).
        apply queues_grow_refl.
      - rewrite (fmap_run _ _ _ _ _ (update_found e doc subs id data i old Hi Hold)).
        apply queues_grow_enqueue. }
    split.
    { rewrite delete_local.
      destruct (findIndex_cases (located_by id) (collection e doc))
        as [[Hnone _] | (i & x & Hi & Hx & _)].
      - rewrite (fmap_run _ _ _ _ _ (delete_absent e doc subs id Hnone)).
        apply queues_grow_refl.
      - rewrite (fmap_run _ _ _ _ _ (delete_found e doc subs id i x Hi Hx)).
        apply queues_grow_enqueue. }
    split.
    { rewrite deleteAll_local.
      rewrite (fmap_run _ _ _ _ _ (deleteAll_run e doc subs)).
      apply queues_grow_refl. }
    repeat split; apply queues_grow_refl.
  - destruct e; repeat split; apply queues_grow_refl.
Qed.

(** What a successful mutation hands back, seen from outside. *)
Lemma mutation_success
    (e : entity) (id nanoid : string) (data : obj)
    (doc : Document) (subs : list Subscriber)
    (T : subscription) (x : obj) (w' : World) :
  (Repository.create e nanoid data (world doc subs) = (inr x, w')
   ∧ T = created e)
  ∨ (Repository.update e id data (world doc subs) = (inr x, w')
     ∧ T = updated e)
  ∨ (Repository.delete e id (world doc subs) = (inr x, w')
     ∧ T = deleted e) →
  w' = world doc (enqueue (topic_of T) {[ topic_of T := x ]} <$> subs).
Proof.
  intros [[Hrun ->] | [[Hrun ->] | [Hrun ->]]].
  - rewrite create_local in Hrun.
    rewrite (fmap_run _ _ _ _ _ (create_run e doc subs nanoid data)) in Hrun.
    by injection Hrun as <- <-.
  - rewrite update_local in Hrun.
    apply observed_success in Hrun as (r & Hrun & ->).
    by apply update_success in Hrun as (i & old & _ & _ & _ & -> & ->).
  - rewrite delete_local in Hrun.
    apply observed_success in Hrun as (r & Hrun & ->).
    by apply delete_success in Hrun as (i & x0 & _ & _ & _ & -> & ->).
Qed.

(** X11: a successful create, update or delete publishes the record it
    returns exactly once, under the name of its own topic: the queue of
    every subscriber of that topic gets that one payload appended, every
    other subscriber is left as it was, and when the topic has no filter
    the subscriber receives the payload whatever arguments it subscribed
    with. *)
Theorem mutation_notifies_own_topic_once
    (e : entity) (id nanoid : string) (data : obj)
    (doc : Document) (subs : list Subscriber)
    (T : subscription) (x : obj) (w' : World) :
  (Repository.create e nanoid data (world doc subs) = (inr x, w')
   ∧ T = created e)
  ∨ (Repository.update e id data (world doc subs) = (inr x, w')
     ∧ T = updated e)
  ∨ (Repository.delete e id (world doc subs) = (inr x, w')
     ∧ T = deleted e) →
  length (pubsub w') = length subs
  ∧ ∀ (i : nat) s, subs !! i = Some s →
      ∃ s', pubsub w' !! i = Some s'
            ∧ (field s = T → queue s' = queue s ++ [ {[ topic_of T := x ]} ])
            ∧ (field s = T → filter_of T = None →
               received s' = received s ++ [ {[ topic_of T := x ]} ])
            ∧ (field s ≠ T → s' = s).
Proof.
  intros Hrun. apply mutation_success in Hrun as ->. simpl.
  split; [apply length_fmap|].
  intros i s Hs. eexists. split; [by rewrite list_lookup_fmap, Hs|].
  split; [|split].
  - intros Hf. by rewrite (enqueue_own T _ s Hf).
  - intros Hf Hnone. rewrite received_enqueue, Hf, String.eqb_refl.
    unfold passes. by rewrite Hnone.
  - intros Hf. by apply enqueue_other.
Qed.

Lemma mutation_notifies_own_topic_once_witness :
  ∃ s', pubsub (world depot_only
                  (enqueue "locationUpdated"
                     {[ "locationUpdated" := spread depot yard_patch ]}
                   <$> [listener locationUpdated "nobody"])) !! 0%nat
        = Some s'
        ∧ received s' = [ {[ "locationUpdated" := spread depot yard_patch ]} ].
Proof.
  destruct (mutation_notifies_own_topic_once
              Location "5" "" yard_patch depot_only
              [listener locationUpdated "nobody"] locationUpdated
              (spread depot yard_patch)
              (world depot_only
                 (enqueue "locationUpdated"
                    {[ "locationUpdated" := spread depot yard_patch ]}
                  <$> [listener locationUpdated "nobody"])))
    as [_ Hsubs].
  - right. left. split; [vm_compute; reflexivity | reflexivity].
  - destruct (Hsubs 0%nat (listener locationUpdated "nobody") eq_refl)
      as (s' & Hs' & _ & Hrecv & _).
    exists s'. split; [exact Hs' | by apply Hrecv].
Defined.

(** X12: when the data file loads, a subscriber registered on
    [participantAdded] with a non-empty [user_id] argument U receives
    the notification of a following [addParticipant] if and only if the
    input's [user_id] is U. *)
Theorem participantAdded_delivered_iff_same_user
    (nanoid : string) (data : obj) (doc : Document)
    (subs : list Subscriber) (i : nat) (s : Subscriber) (U : string) :
  U ≠ "" →
  subs !! i = Some s →
  field s = participantAdded →
  variables s !! "user_id" = Some (VStr U) →
  let participant := with_id (VStr nanoid) data in
  let w' := (Mutation.addParticipant nanoid data (world doc subs)).2 in
  ∃ s', pubsub w' !! i = Some s'
        ∧ (data !! "user_id" = Some (VStr U) →
           received s' = received s ++ [ {[ "participantAdded" := participant ]} ])
        ∧ (data !! "user_id" ≠ Some (VStr U) → received s' = received s).
Proof.
  intros HU Hs Hf Hargs participant w'.
  set (p := {[ "participantAdded" := participant ]} : payload).
  assert (pubsub w' = enqueue "participantAdded" p <$> subs) as Hbus by reflexivity.
  exists (enqueue "participantAdded" p s).
  assert (passes (field s) (variables s) p
          = strict_equals (get data "user_id") (VStr U)) as Hpass.
  { assert (participantAdded_filter p (variables s)
            = inr (strict_equals (get participant "user_id") (VStr U))) as Hfilter
      by exact (filter_nonempty participantAdded _ eq_refl participant _ U HU Hargs).
    unfold passes. rewrite Hf. cbn [filter_of]. rewrite Hfilter.
    unfold get, participant. rewrite with_id_other by done.
    destruct (strict_equals (default VUndefined (data !! "user_id")) (VStr U));
      reflexivity. }
  split; [by rewrite Hbus, list_lookup_fmap, Hs|].
  rewrite received_enqueue, Hpass, Hf. simpl.
  split; intros Hdata.
  - apply get_is_string in Hdata. by rewrite Hdata.
  - destruct (strict_equals _ _) eqn:Heq.
    + apply get_is_string in Heq. contradiction.
    + apply app_nil_r.
Qed.

Lemma participantAdded_delivered_iff_same_user_witness :
  ∃ s', pubsub (Mutation.addParticipant "p1" ticket
                  (world no_records [listener participantAdded "7"])).2 !! 0%nat
        = Some s'
        ∧ received s' = [ {[ "participantAdded" := with_id (VStr "p1") ticket ]} ].
Proof.
  destruct (participantAdded_delivered_iff_same_user
              "p1" ticket no_records [listener participantAdded "7"] 0
              (listener participantAdded "7") "7")
    as (s' & Hs' & Hsame & _);
    [discriminate | reflexivity | reflexivity | reflexivity |].
  exists s'. split; [exact Hs' | apply Hsame; reflexivity].
Defined.

(** ** The id of a new user *)

(** X13: [addUser] derives the id from the number of users in the file
    alone, and the file is not written: whatever the two inputs, two
    calls in a row return records with the same id, the decimal string
    of that number plus one. *)
Theorem addUser_twice_assigns_same_id
    (data1 data2 : obj) (doc : Document) (subs : list Subscriber) :
  Schema.valid_input Schema.createUserInput data1 = true →
  Schema.valid_input Schema.createUserInput data2 = true →
  ∃ x1 w1 x2 w2,
    Mutation.addUser data1 (world doc subs) = (inr x1, w1)
    ∧ Mutation.addUser data2 w1 = (inr x2, w2)
    ∧ x1 !! "id" = Some (VStr (String_of_nat (length (Data.users doc) + 1)))
    ∧ x2 !! "id" = x1 !! "id".
Proof.
  intros Hv1 Hv2.
  pose proof (create_input_no_id User data1 Hv1) as Hid1.
  pose proof (create_input_no_id User data2 Hv2) as Hid2.
  set (newId := VStr (String_of_nat (length (Data.users doc) + 1))).
  set (subs1 := enqueue "userCreated" {[ "userCreated" := with_id newId data1 ]}
                  <$> subs).
  exists (with_id newId data1), (world doc subs1),
         (with_id newId data2),
         (world doc (enqueue "userCreated"
                       {[ "userCreated" := with_id newId data2 ]} <$> subs1)).
  split; [reflexivity|]. split; [reflexivity|].
  rewrite (with_id_insert _ _ Hid1), (with_id_insert _ _ Hid2).
  by rewrite !lookup_insert_eq.
Qed.

Lemma addUser_twice_assigns_same_id_witness :
  ∃ x1 w1 x2 w2,
    Mutation.addUser {[ "username" := VStr "dan"; "email" := VStr "d@x.com" ]}
      (world alice_only []) = (inr x1, w1)
    ∧ Mutation.addUser {[ "username" := VStr "eve"; "email" := VStr "e@x.com" ]}
        w1 = (inr x2, w2)
    ∧ x1 !! "id" = Some (VStr "2")
    ∧ x2 !! "id" = x1 !! "id".
Proof.
  apply (addUser_twice_assigns_same_id
           {[ "username" := VStr "dan"; "email" := VStr "d@x.com" ]}
           {[ "username" := VStr "eve"; "email" := VStr "e@x.com" ]}
           alice_only []); vm_compute; reflexivity.
Defined.

(** ** Ids as [parseInt] reads them *)

Lemma located_by_NaN (id : string) (x : obj) :
  parseInt id = NaN → located_by id x = false.
Proof.
  intros H. unfold located_by. rewrite H.
  destruct (get x "id") as [| | |n|]; try reflexivity. by destruct n.
Qed.

Lemma update_same_parseInt (e : entity) (id id' : string) (data : obj) (w : World) :
  parseInt id = parseInt id' →
  Repository.update e id data w = Repository.update e id' data w.
Proof.
  intros H. destruct w as [[doc|] subs]; [|by destruct e].
  change {| data_json := Some doc; pubsub := subs |} with (world doc subs).
  rewrite !update_local. unfold fmap, Resolver_fmap, Local.update.
  unfold_monad. simpl.
  rewrite (findIndex_ext (located_by id) (located_by id'));
    [reflexivity|]. intros x. unfold located_by. by rewrite H.
Qed.

Lemma delete_same_parseInt (e : entity) (id id' : string) (w : World) :
  parseInt id = parseInt id' →
  Repository.delete e id w = Repository.delete e id' w.
Proof.
  intros H. destruct w as [[doc|] subs]; [|by destruct e].
  change {| data_json := Some doc; pubsub := subs |} with (world doc subs).
  rewrite !delete_local. unfold fmap, Resolver_fmap, Local.delete.
  unfold_monad. simpl.
  rewrite (findIndex_ext (located_by id) (located_by id'));
    [reflexivity|]. intros x. unfold located_by. by rewrite H.
Qed.

(** X14: an id from which [parseInt] reads no number, such as the empty
    string or an id that starts with a letter, locates nothing: update
    and delete fail with the entity's "not found" error on every data
    file that loads, and leave the world as it was. *)
Theorem unparsable_id_is_never_found
    (e : entity) (id : string) (data : obj)
    (doc : Document) (subs : list Subscriber) :
  parseInt id = NaN →
  Repository.update e id data (world doc subs)
  = (inl (not_found e), world doc subs)
  ∧ Repository.delete e id (world doc subs)
    = (inl (not_found e), world doc subs).
Proof.
  intros Hnan.
  assert (findIndex (located_by id) (collection e doc) = -1) as Hnone.
  { apply findIndex_absent. intros x _. by apply located_by_NaN. }
  split.
  - rewrite update_local.
    by rewrite (fmap_run _ _ _ _ _ (update_absent e doc subs id data Hnone)).
  - rewrite delete_local.
    by rewrite (fmap_run _ _ _ _ _ (delete_absent e doc subs id Hnone)).
Qed.

Lemma unparsable_id_is_never_found_witness :
  (Repository.update Event "" ∅ (world concert_only [])
   = (inl (Error "Event not found"), world concert_only []))
  ∧ (Repository.delete Event "V1StGXR8_Z5jdHi6B-myT" (world concert_only [])
     = (inl (Error "Event not found"), world concert_only [])).
Proof.
  split.
  - apply (unparsable_id_is_never_found Event "" ∅ concert_only []).
    reflexivity.
  - apply (unparsable_id_is_never_found
             Event "V1StGXR8_Z5jdHi6B-myT" ∅ concert_only []).
    reflexivity.
Defined.

(** *** Decimal numerals *)

Lemma parse_digits_stops (t : string) (acc : option Z) :
  stops_decimal t = true → parse_digits 10 t acc = acc.
Proof.
  destruct t as [|c r]; [reflexivity|]. simpl.
  destruct (digit_value c) as [d|]; [|reflexivity].
  intros [Hd _]%andb_prop. apply Z.leb_le in Hd.
  destruct (Z.ltb_spec d 10); [lia | reflexivity].
Qed.

Lemma append_String (c : ascii) (s t : string) :
  (String c s ++ t)%string = String c (s ++ t).
Proof. reflexivity. Qed.

Lemma append_empty (s : string) : (s ++ "")%string = s.
Proof. induction s as [|c s IH]; [reflexivity|]. by rewrite append_String, IH. Qed.

Lemma parse_digits_uint (d : Decimal.uint) (t : string) (acc : nat) :
  stops_decimal t = true →
  parse_digits 10 (NilEmpty.string_of_uint d ++ t) (Some (Z.of_nat acc))
  = Some (Z.of_nat (Nat.of_uint_acc d acc)).
Proof.
  intros Ht. revert acc.
  induction d as [|d IH|d IH|d IH|d IH|d IH|d IH|d IH|d IH|d IH|d IH];
    intros acc;
    [by apply parse_digits_stops|..];
    cbn [NilEmpty.string_of_uint Nat.of_uint_acc];
    rewrite append_String; cbn [parse_digits];
    rewrite <- IH;
    match goal with
    | |- context [digit_value ?c] =>
        let v := eval vm_compute in (digit_value c) in
        change (digit_value c) with v
    end;
    cbv beta iota;
    match goal with
    | |- context [?k <? 10] =>
        let v := eval vm_compute in (k <? 10) in change (k <? 10) with v
    end;
    cbv beta iota; f_equal; f_equal; rewrite Nat.tail_mul_spec;
    cbn [default]; unfold id; lia.
Qed.

Lemma trim_start_digit (c : ascii) (rest : string) :
  48 ≤ code c ≤ 57 → trim_start (String c rest) = String c rest.
Proof.
  intros Hc. simpl.
  assert (is_whitespace c = false) as ->.
  { unfold is_whitespace.
    destruct (Z.leb_spec 9 (code c)), (Z.leb_spec (code c) 13),
      (Z.eqb_spec (code c) 32); simpl; first [reflexivity | lia]. }
  assert ((code c =? 194) = false) as H194 by (apply Z.eqb_neq; lia).
  assert ((code c =? 225) = false) as H225 by (apply Z.eqb_neq; lia).
  assert ((code c =? 226) = false) as H226 by (apply Z.eqb_neq; lia).
  assert ((code c =? 227) = false) as H227 by (apply Z.eqb_neq; lia).
  assert ((code c =? 239) = false) as H239 by (apply Z.eqb_neq; lia).
  destruct rest as [|d [|e r]]; try reflexivity;
    unfold is_whitespace2, is_whitespace3;
    rewrite ?H194, ?H225, ?H226, ?H227, ?H239; reflexivity.
Qed.

Lemma numeral_head (d : Decimal.uint) (t : string) :
  d ≠ Decimal.Nil →
  ∃ c rest, (NilEmpty.string_of_uint d ++ t)%string = String c rest
            ∧ 48 ≤ code c ≤ 57.
Proof.
  intros Hd. destruct d; [done|..]; simpl; eexists _, _;
    (split; [reflexivity | vm_compute; split; discriminate]).
Qed.

Lemma strip_sign_digit (c : ascii) (rest : string) :
  48 ≤ code c ≤ 57 → strip_sign (String c rest) = (1, String c rest).
Proof.
  intros Hc. destruct c as [[] [] [] [] [] [] [] []];
    first [reflexivity | vm_compute in Hc; destruct Hc as [H1 H2];
           first [by destruct H1 | by destruct H2]].
Qed.

Lemma strip_prefix_stops (t : string) :
  stops_decimal t = true → strip_prefix t = (10, t).
Proof.
  destruct t as [|c r]; [reflexivity|].
  destruct c as [[] [] [] [] [] [] [] []]; first [reflexivity | discriminate].
Qed.

Lemma strip_prefix_zero_stops (t : string) :
  stops_decimal t = true → strip_prefix (String "0" t) = (10, String "0" t).
Proof.
  destruct t as [|c r]; [reflexivity|].
  destruct c as [[] [] [] [] [] [] [] []]; first [reflexivity | discriminate].
Qed.

Lemma strip_prefix_numeral (d : Decimal.uint) (t : string) :
  stops_decimal t = true →
  strip_prefix (NilEmpty.string_of_uint d ++ t)
  = (10, (NilEmpty.string_of_uint d ++ t)%string).
Proof.
  intros Ht. destruct d as [|d|d|d|d|d|d|d|d|d|d]; try reflexivity.
  - by apply strip_prefix_stops.
  - destruct d; try reflexivity. by apply strip_prefix_zero_stops.
Qed.

Lemma parseInt_numeral (d : Decimal.uint) (t : string) :
  d ≠ Decimal.Nil → stops_decimal t = true →
  parseInt (NilEmpty.string_of_uint d ++ t)
  = to_double (Z.of_nat (Nat.of_uint d)).
Proof.
  intros Hd Ht. unfold parseInt.
  destruct (numeral_head d t Hd) as (c & rest & Hs & Hc).
  rewrite Hs, (trim_start_digit c rest Hc), (strip_sign_digit c rest Hc), <- Hs.
  rewrite (strip_prefix_numeral d t Ht).
  assert (parse_digits 10 (NilEmpty.string_of_uint d ++ t) None
          = Some (Z.of_nat (Nat.of_uint d))) as ->.
  { unfold Nat.of_uint. rewrite <- (parse_digits_uint d t 0 Ht).
    destruct d; [done|..]; reflexivity. }
  by rewrite Z.mul_1_l.
Qed.

Lemma parseInt_String_of_nat (n : nat) (t : string) :
  stops_decimal t = true →
  parseInt (String_of_nat n ++ t) = to_double (Z.of_nat n).
Proof.
  intros Ht. unfold String_of_nat.
  rewrite <- (DecimalNat.Unsigned.of_to n) at 2.
  destruct (Nat.to_uint n) as [|d|d|d|d|d|d|d|d|d|d] eqn:Hd;
    [exact (parseInt_numeral (Decimal.D0 Decimal.Nil) t ltac:(discriminate) Ht)
    |apply parseInt_numeral; [discriminate | exact Ht]..].
Qed.

Lemma to_double_exact (z : Z) : Z.abs z < 2 ^ 53 → to_double z = of_Z z.
Proof.
  intros Hz. unfold to_double.
  by destruct (Z.ltb_spec (Z.abs z) (2 ^ 53)); [|lia].
Qed.

(** X15: the decimal string of a number below 2^53, followed by anything
    that does not continue the numeral ([" "], ["abc"], [".5"], ...), is
    read by [parseInt] as that number.  So such an id locates exactly
    the records whose id is that number, and update and delete behave
    with it as with the bare numeral. *)
Theorem numeral_with_suffix_is_the_number
    (n : nat) (t : string) (e : entity) (data : obj) (x : obj) (w : World) :
  Z.of_nat n < 2 ^ 53 →
  stops_decimal t = true →
  parseInt (String_of_nat n ++ t) = of_nat n
  ∧ located_by (String_of_nat n ++ t) x
    = strict_equals (get x "id") (VNum (of_nat n))
  ∧ Repository.update e (String_of_nat n ++ t) data w
    = Repository.update e (String_of_nat n) data w
  ∧ Repository.delete e (String_of_nat n ++ t) w
    = Repository.delete e (String_of_nat n) w.
Proof.
  intros Hn Ht.
  assert (parseInt (String_of_nat n ++ t) = of_nat n) as Hparse.
  { rewrite (parseInt_String_of_nat n t Ht). apply to_double_exact. lia. }
  assert (parseInt (String_of_nat n) = of_nat n) as Hbare.
  { rewrite <- (append_empty (String_of_nat n)) at 1.
    rewrite (parseInt_String_of_nat n "" eq_refl). apply to_double_exact. lia. }
  split; [exact Hparse|]. split; [unfold located_by; by rewrite Hparse|].
  split.
  - apply update_same_parseInt. congruence.
  - apply delete_same_parseInt. congruence.
Qed.

Lemma numeral_with_suffix_is_the_number_witness :
  parseInt "5abc" = of_nat 5
  ∧ Repository.delete Location "5abc" (world depot_only [])
    = Repository.delete Location "5" (world depot_only []).
Proof.
  destruct (numeral_with_suffix_is_the_number
              5 "abc" Location ∅ depot (world depot_only []))
    as (Hparse & _ & _ & Hdel); [reflexivity | reflexivity |].
  split; [exact Hparse | exact Hdel].
Defined.

(** ** Field resolvers *)

(** X16: the events of a user and the user of an event agree.  When the
    user is in the file and no other stored user has an id strictly
    equal to hers, every event that [User.events] returns for her is an
    event of the file whose [Event.user] is that very user. *)
Theorem events_of_user_resolve_back_to_user
    (parent event : obj) (evs : list obj)
    (doc : Document) (subs : list Subscriber) (w' : World) :
  parent ∈ Data.users doc →
  (∀ u, u ∈ Data.users doc →
        strict_equals (get u "id") (get parent "id") = true → u = parent) →
  User.events parent (world doc subs) = (inr evs, w') →
  event ∈ evs →
  event ∈ Data.events doc
  ∧ strict_equals (get event "user_id") (get parent "id") = true
  ∧ Event.user event w' = (inr (Some parent), w').
Proof.
  intros Hparent Huniq [= <- <-] Hev.
  apply list_elem_of_In, filter_In in Hev as [Hin Hown].
  apply list_elem_of_In in Hin.
  split; [assumption|]. split; [assumption|].
  change (Event.user event (world doc subs))
    with (@pair (error + option obj) World
            (inr (find (λ user, strict_equals (get user "id") (get event "user_id"))
                    (Data.users doc)))
            (world doc subs)).
  f_equal. f_equal.
  destruct (find_present
              (λ user, strict_equals (get user "id") (get event "user_id"))
              (Data.users doc) parent Hparent) as (u & Hfind & Hu & Hpu).
  { simpl. by rewrite strict_equals_sym. }
  rewrite Hfind. f_equal. apply (Huniq u Hu).
  exact (strict_equals_trans _ _ _ Hpu Hown).
Qed.

Lemma events_of_user_resolve_back_to_user_witness :
  Event.user recital (world carol_recital []) = (inr (Some carol), world carol_recital []).
Proof.
  apply (events_of_user_resolve_back_to_user
           carol recital [recital] carol_recital [] (world carol_recital [])).
  - apply list_elem_of_further, list_elem_of_here.
  - intros u Hu Hid.
    apply elem_of_cons in Hu as [-> | Hu]; [vm_compute in Hid; discriminate|].
    by apply list_elem_of_singleton in Hu.
  - vm_compute. reflexivity.
  - apply list_elem_of_here.
Defined.

(** X17: the participants of an event and the event of a participant
    agree.  When the event is in the file and no other stored event has
    an id strictly equal to its id, every participant that
    [Event.participants] returns for it is a participant of the file
    whose [Participant.event] is that very event. *)
Theorem participants_of_event_resolve_back_to_event
    (parent participant : obj) (ps : list obj)
    (doc : Document) (subs : list Subscriber) (w' : World) :
  parent ∈ Data.events doc →
  (∀ ev, ev ∈ Data.events doc →
         strict_equals (get ev "id") (get parent "id") = true → ev = parent) →
  Event.participants parent (world doc subs) = (inr ps, w') →
  participant ∈ ps →
  participant ∈ Data.participants doc
  ∧ strict_equals (get participant "event_id") (get parent "id") = true
  ∧ Participant.event participant w' = (inr (Some parent), w').
Proof.
  intros Hparent Huniq [= <- <-] Hp.
  apply list_elem_of_In, filter_In in Hp as [Hin Hown].
  apply list_elem_of_In in Hin.
  split; [assumption|]. split; [assumption|].
  change (Participant.event participant (world doc subs))
    with (@pair (error + option obj) World
            (inr (find (λ ev, strict_equals (get ev "id")
                                (get participant "event_id"))
                    (Data.events doc)))
            (world doc subs)).
  f_equal. f_equal.
  destruct (find_present
              (λ ev, strict_equals (get ev "id") (get participant "event_id"))
              (Data.events doc) parent Hparent) as (ev & Hfind & Hev & Hpev).
  { simpl. by rewrite strict_equals_sym. }
  rewrite Hfind. f_equal. apply (Huniq ev Hev).
  exact (strict_equals_trans _ _ _ Hpev Hown).
Qed.

Lemma participants_of_event_resolve_back_to_event_witness :
  Participant.event seat (world carol_recital [])
  = (inr (Some recital), world carol_recital []).
Proof.
  apply (participants_of_event_resolve_back_to_event
           recital seat [seat] carol_recital [] (world carol_recital [])).
  - apply list_elem_of_further, list_elem_of_here.
  - intros ev Hev Hid.
    apply elem_of_cons in Hev as [-> | Hev]; [vm_compute in Hid; discriminate|].
    by apply list_elem_of_singleton in Hev.
  - vm_compute. reflexivity.
  - apply list_elem_of_here.
Defined.

(** X18: a foreign key written by the API is a string ([ID] arguments
    arrive as strings), so it never resolves to a record stored with a
    numeric id: when every stored user, event and location has a number
    for its id, [Event.user] and [Event.location] of a record created by
    [addEvent], and [Participant.user] and [Participant.event] of one
    created by [addParticipant], all come back empty. *)
Theorem string_foreign_keys_miss_numeric_ids
    (nanoid : string) (data : obj) (doc : Document) (subs : list Subscriber) :
  (∀ e x, x ∈ collection e doc → ∃ n, x !! "id" = Some (VNum n)) →
  (Schema.valid_input Schema.createEventInput data = true →
   ∃ ev w', Mutation.addEvent nanoid data (world doc subs) = (inr ev, w')
            ∧ Event.user ev w' = (inr None, w')
            ∧ Event.location ev w' = (inr None, w'))
  ∧ (Schema.valid_input Schema.createParticipantInput data = true →
     ∃ p w', Mutation.addParticipant nanoid data (world doc subs) = (inr p, w')
             ∧ Participant.user p w' = (inr None, w')
             ∧ Participant.event p w' = (inr None, w')).
Proof.
  intros Hnum.
  assert (∀ e (k : string) (r : obj),
            (r !! k = None ∨ r !! k = Some VNull ∨ ∃ s, r !! k = Some (VStr s)) →
            find (λ x, strict_equals (get x "id") (get r k)) (collection e doc)
            = None) as Hmiss.
  { intros e k r Hk. apply find_absent. intros x Hx.
    destruct (Hnum e x Hx) as [n Hn]. unfold get at 1. rewrite Hn. simpl.
    unfold get. destruct Hk as [-> | [-> | [s ->]]]; reflexivity. }
  assert (∀ ty (k : string),
            Schema.valid_input ty data = true → k ≠ "id" →
            (∃ f, Schema.lookup_field ty k = Some f ∧ Schema.field_type f = Schema.TID) →
            let r := with_id (VStr nanoid) data in
            r !! k = None ∨ r !! k = Some VNull ∨ ∃ s, r !! k = Some (VStr s))
    as Hkey.
  { intros ty k Hv Hk (f & Hf & Hty) r. unfold r. rewrite with_id_other by done.
    destruct (data !! k) as [v|] eqn:Hdk; [|by left]. right.
    destruct (valid_input_property _ _ _ _ Hv Hdk) as (f' & Hf' & Hacc).
    rewrite Hf in Hf'. injection Hf' as <-.
    unfold Schema.field_accepts in Hacc. rewrite Hty in Hacc.
    destruct v as [| | |n|s]; simpl in Hacc;
      rewrite ?andb_false_r in Hacc; try discriminate; eauto. }
  set (r := with_id (VStr nanoid) data) in *.
  split; intros Hv.
  - exists r, (world doc (enqueue "eventCreated" {[ "eventCreated" := r ]} <$> subs)).
    split; [reflexivity|]. split.
    + change (Event.user r (world doc ?s))
        with (@pair (error + option obj) World
                (inr (find (λ x, strict_equals (get x "id") (get r "user_id"))
                        (collection User doc))) (world doc s)).
      rewrite (Hmiss User "user_id"); [reflexivity|].
      apply (Hkey _ "user_id" Hv); [done|]. eexists. split; reflexivity.
    + change (Event.location r (world doc ?s))
        with (@pair (error + option obj) World
                (inr (find (λ x, strict_equals (get x "id") (get r "location_id"))
                        (collection Location doc))) (world doc s)).
      rewrite (Hmiss Location "location_id"); [reflexivity|].
      apply (Hkey _ "location_id" Hv); [done|]. eexists. split; reflexivity.
  - exists r, (world doc (enqueue "participantAdded"
                            {[ "participantAdded" := r ]} <$> subs)).
    split; [reflexivity|]. split.
    + change (Participant.user r (world doc ?s))
        with (@pair (error + option obj) World
                (inr (find (λ x, strict_equals (get x "id") (get r "user_id"))
                        (collection User doc))) (world doc s)).
      rewrite (Hmiss User "user_id"); [reflexivity|].
      apply (Hkey _ "user_id" Hv); [done|]. eexists. split; reflexivity.
    + change (Participant.event r (world doc ?s))
        with (@pair (error + option obj) World
                (inr (find (λ x, strict_equals (get x "id") (get r "event_id"))
                        (collection Event doc))) (world doc s)).
      rewrite (Hmiss Event "event_id"); [reflexivity|].
      apply (Hkey _ "event_id" Hv); [done|]. eexists. split; reflexivity.
Qed.

Lemma string_foreign_keys_miss_numeric_ids_witness :
  ∃ ev w', Mutation.addEvent "e1" party (world carol_recital []) = (inr ev, w')
           ∧ Event.user ev w' = (inr None, w')
           ∧ Event.location ev w' = (inr None, w').
Proof.
  apply (string_foreign_keys_miss_numeric_ids "e1" party carol_recital []).
  - intros e x Hx. destruct e; simpl in Hx;
      repeat (apply elem_of_cons in Hx as [-> | Hx]);
      first [by eexists | by apply elem_of_nil in Hx].
  - vm_compute. reflexivity.
Defined.

(** ** The id under an update *)

(** X19: [updateUserInput] and [updateEventInput] have no [id] field,
    so a successful [updateUser] or [updateEvent] with a valid patch
    returns a record with the id of the record it located: still a
    number, still located by the same id argument. *)
Theorem update_keeps_id_of_user_and_event
    (e : entity) (id : string) (data : obj)
    (doc : Document) (subs : list Subscriber) (x : obj) (w' : World) :
  e = User ∨ e = Event →
  Schema.valid_input (update_input e) data = true →
  Repository.update e id data (world doc subs) = (inr x, w') →
  Schema.lookup_field (update_input e) "id" = None
  ∧ located_by id x = true
  ∧ ∃ old, old ∈ collection e doc ∧ x !! "id" = old !! "id"
           ∧ ∃ n, old !! "id" = Some (VNum n).
Proof.
  intros He Hvalid Hupd.
  assert (Schema.lookup_field (update_input e) "id" = None) as Hschema
    by (by destruct He as [-> | ->]).
  assert (data !! "id" = None) as Hid.
  { destruct (data !! "id") as [v|] eqn:Hd; [|reflexivity].
    destruct (valid_input_property _ _ _ _ Hvalid Hd) as (f & Hf & _).
    congruence. }
  rewrite update_local in Hupd.
  apply observed_success in Hupd as (r & Hrun & ->).
  apply update_success in Hrun as (i & old & Hold & Hp & _ & -> & _). simpl.
  assert (spread old data !! "id" = old !! "id") as Hkept
    by (by apply spread_lookup_kept).
  split; [exact Hschema|]. split.
  - unfold located_by, get in *. by rewrite Hkept.
  - exists old. split; [by apply list_elem_of_lookup_2 in Hold|].
    split; [exact Hkept | by apply (located_by_number id)].
Qed.

Lemma update_keeps_id_of_user_and_event_witness :
  located_by "1" (spread bob {[ "email" := VStr "bob@new.com" ]}) = true.
Proof.
  apply (update_keeps_id_of_user_and_event
           User "1" {[ "email" := VStr "bob@new.com" ]} bob_only []
           (spread bob {[ "email" := VStr "bob@new.com" ]}) (world bob_only []));
    [left; reflexivity | vm_compute; reflexivity | vm_compute; reflexivity].
Defined.
